(** * Packing engine of the shipping-container visualizer

    A shallow embedding of [services/PackingAlgorithm.ts] (first-fit
    decreasing 3D bin packing with guillotine splits and a fragility
    stacking rule) together with the properties its specification states.

    Numbers.  The engine is embedded twice.  The first embedding models the
    TypeScript [number]s that carry lengths, positions, volumes and weights
    as exact rationals [Q]; it serves the properties that rest on the
    control flow, on the comparisons [<=], [<], [>], [===] and [!==] of
    values the program copies, and on integer counters (quantities, array
    lengths), which are modelled as [Z].  The second embedding, the module
    [Binary64], is the same engine over IEEE binary64 numbers, the format
    the program computes in; it serves the properties that depend on the
    rounded results of [+], [-] and [*]. *)

From Stdlib Require Import QArith Qround Qabs ZArith List Ascii String Bool.
From Stdlib Require Import Lia Lqa Permutation Sorted DecimalString DecimalNat.
From Stdlib Require Import PrimFloat SpecFloat FloatOps Uint63.
Import ListNotations.

Open Scope Q_scope.

(** Decimal literals denote the nearest binary64 value, as in the source. *)
Set Warnings "-inexact-float".

(** ** Numbers *)

Definition Qltb (a b : Q) : bool := negb (Qle_bool b a).

(** [Math.round]: nearest integer, ties towards plus infinity. *)
Definition Math_round (x : Q) : Q := inject_Z (Qfloor (x + (1 # 2))).

(** ** Data model ([types/index.ts]) *)

Record Container := mkContainer {
  ct_length : Q;
  ct_width : Q;
  ct_height : Q
}.

Record BoxType := mkBoxType {
  bt_id : string;
  bt_name : string;
  bt_length : Q;
  bt_width : Q;
  bt_height : Q;
  bt_weight : Q;
  isFragile : bool;
  bt_color : string;
  quantity : Z
}.

Record Position := mkPosition { pos_x : Q; pos_y : Q; pos_z : Q }.

(** A rotation angle is either [0] or [Math.PI / 2]; no other value is ever
    written by the engine. *)
Inductive Angle := Angle0 | AngleHalfPi.

Record Rotation := mkRotation { rot_x : Angle; rot_y : Angle; rot_z : Angle }.

Record Dimensions := mkDimensions {
  dim_length : Q;
  dim_width : Q;
  dim_height : Q
}.

Record PackedBox := mkPackedBox {
  pb_id : string;
  boxType : BoxType;
  position : Position;
  rotation : Rotation;
  dimensions : Dimensions
}.

Record PackingStats := mkPackingStats {
  totalBoxes : Z;
  packedBoxesCount : Z;
  unpackedBoxes : Z;
  containerVolume : Q;
  usedVolume : Q;
  utilizationPercent : Q;
  totalWeight : Q
}.

Record PackingResult := mkPackingResult {
  success : bool;
  boxes : list PackedBox;
  unpacked : list BoxType;
  stats : PackingStats
}.

(** ** Internal records of the algorithm *)

Record BoxToPlace := mkBoxToPlace {
  btp_boxType : BoxType;
  btp_index : nat
}.

Record Space := mkSpace {
  sp_x : Q;
  sp_y : Q;
  sp_z : Q;
  sp_length : Q;
  sp_width : Q;
  sp_height : Q
}.

(** ** [Array.prototype.sort] with a comparator

    The comparator returns a number; an element [a] stays in front of [b]
    unless [cmp a b > 0].  The sort is stable, here realised by insertion. *)

Section Sort.
Context {A : Type} (cmp : A -> A -> Q).

Fixpoint insert (a : A) (l : list A) : list A :=
  match l with
  | [] => [a]
  | b :: l' => if Qle_bool (cmp a b) 0 then a :: l else b :: insert a l'
  end.

Definition sort (l : list A) : list A := fold_right insert [] l.
End Sort.

(** What the language guarantees of [sort] for a consistent comparator: the
    result is ordered by the comparator and elements that compare equal
    keep their relative order. *)
Section StableSort.
Context {A : Type} (cmp : A -> A -> Q).

Definition tied (x y : A) : bool :=
  Qle_bool (cmp x y) 0 && Qle_bool (cmp y x) 0.

Record consistentComparator : Prop := mkConsistent {
  cmp_refl : forall a, cmp a a <= 0;
  cmp_total : forall a b, ~ cmp a b <= 0 -> cmp b a <= 0;
  cmp_trans : forall a b c, cmp a b <= 0 -> cmp b c <= 0 -> cmp a c <= 0
}.

Definition stableSortOf (l l' : list A) : Prop :=
  StronglySorted (fun a b => cmp a b <= 0) l' /\
  forall x, filter (tied x) l' = filter (tied x) l.
End StableSort.

(** ** The packing algorithm ([services/PackingAlgorithm.ts]) *)

Definition boxFitsInSpace (boxL boxW boxH : Q) (space : Space) : bool :=
  Qle_bool boxL (sp_length space) && Qle_bool boxW (sp_width space)
  && Qle_bool boxH (sp_height space).

Definition getRotations (box : BoxType) : list (Q * Q * Q) :=
  let l := bt_length box in
  let w := bt_width box in
  let h := bt_height box in
  if isFragile box then
    [ (l, w, h); (w, l, h) ]
  else
    [ (l, w, h); (l, h, w); (w, l, h); (w, h, l); (h, l, w); (h, w, l) ].

Definition getRotationFromDimensions (original : BoxType) (rotated : Q * Q * Q)
  : Rotation :=
  let '(rl, rw, rh) := rotated in
  if Qeq_bool rl (bt_length original) && Qeq_bool rw (bt_width original)
     && Qeq_bool rh (bt_height original)
  then mkRotation Angle0 Angle0 Angle0
  else if Qeq_bool rl (bt_width original) && Qeq_bool rw (bt_length original)
          && Qeq_bool rh (bt_height original)
  then mkRotation Angle0 AngleHalfPi Angle0
  else mkRotation Angle0 Angle0 Angle0.

(** [Math.abs(y - top) < 0.1] *)
Definition nearLevel (y top : Q) : bool := Qltb (Qabs (y - top)) (1 # 10).

Definition fragileTopOf (packed : PackedBox) : Q :=
  pos_y (position packed) + dim_height (dimensions packed).

(** The predicate of the [filter] that computes [stackCount]. *)
Definition stackedOn (packed b : PackedBox) : bool :=
  nearLevel (pos_y (position b)) (fragileTopOf packed)
  && Qltb (pos_x (position b))
          (pos_x (position packed) + dim_length (dimensions packed))
  && Qltb (pos_x (position packed))
          (pos_x (position b) + dim_length (dimensions b))
  && Qltb (pos_z (position b))
          (pos_z (position packed) + dim_width (dimensions packed))
  && Qltb (pos_z (position packed))
          (pos_z (position b) + dim_width (dimensions b)).

Definition stackCount (packedBoxes : list PackedBox) (packed : PackedBox) : nat :=
  List.length (filter (stackedOn packed) packedBoxes).

(** The body of the [for (const packed of packedBoxes)] loop; [rest] is what
    remains to be visited, [packedBoxes] the whole array (used by the
    [filter]). *)
Fixpoint fragilityLoop (packedBoxes rest : list PackedBox)
    (pos : Position) (dims : Dimensions) : bool :=
  match rest with
  | [] => true
  | packed :: rest' =>
    if negb (isFragile (boxType packed)) then
      fragilityLoop packedBoxes rest' pos dims
    else
      let fragileTop := fragileTopOf packed in
      if nearLevel (pos_y pos) fragileTop then
        let overlapX :=
          Qltb (pos_x pos)
               (pos_x (position packed) + dim_length (dimensions packed))
          && Qltb (pos_x (position packed)) (pos_x pos + dim_length dims) in
        let overlapZ :=
          Qltb (pos_z pos)
               (pos_z (position packed) + dim_width (dimensions packed))
          && Qltb (pos_z (position packed)) (pos_z pos + dim_width dims) in
        if overlapX && overlapZ then
          if (2 <=? stackCount packedBoxes packed)%nat then false
          else fragilityLoop packedBoxes rest' pos dims
        else fragilityLoop packedBoxes rest' pos dims
      else fragilityLoop packedBoxes rest' pos dims
  end.

Definition checkFragilityConstraint (packedBoxes : list PackedBox)
    (newBox : BoxType) (pos : Position) (dims : Dimensions) : bool :=
  fragilityLoop packedBoxes packedBoxes pos dims.

Definition splitSpace (space : Space) (boxL boxW boxH : Q) : list Space :=
  let newSpaces := [] in
  let newSpaces :=
    if Qltb 0 (sp_length space - boxL) then
      newSpaces ++ [ {| sp_x := sp_x space + boxL;
                        sp_y := sp_y space;
                        sp_z := sp_z space;
                        sp_length := sp_length space - boxL;
                        sp_width := sp_width space;
                        sp_height := sp_height space |} ]
    else newSpaces in
  let newSpaces :=
    if Qltb 0 (sp_width space - boxW) then
      newSpaces ++ [ {| sp_x := sp_x space;
                        sp_y := sp_y space;
                        sp_z := sp_z space + boxW;
                        sp_length := boxL;
                        sp_width := sp_width space - boxW;
                        sp_height := sp_height space |} ]
    else newSpaces in
  let newSpaces :=
    if Qltb 0 (sp_height space - boxH) then
      newSpaces ++ [ {| sp_x := sp_x space;
                        sp_y := sp_y space + boxH;
                        sp_z := sp_z space;
                        sp_length := boxL;
                        sp_width := boxW;
                        sp_height := sp_height space - boxH |} ]
    else newSpaces in
  newSpaces.

(** *** The main loop of [packBoxes] *)

(** [`${boxType.id}_${index}`] *)
Definition packedBoxId (bt : BoxType) (index : nat) : string :=
  (bt_id bt ++ "_" ++ NilZero.string_of_uint (Nat.to_uint index))%string.

(** Demand expansion: the two nested [for] loops that fill [boxesToPlace].
    The inner loop runs while [i < boxType.quantity]. *)
Definition expandBoxType (bt : BoxType) : list BoxToPlace :=
  map (mkBoxToPlace bt) (seq 0 (Z.to_nat (quantity bt))).

Definition expandBoxTypes (boxTypes : list BoxType) : list BoxToPlace :=
  flat_map expandBoxType boxTypes.

Definition specVolume (bt : BoxType) : Q :=
  bt_length bt * bt_width bt * bt_height bt.

(** Comparator of [boxesToPlace.sort]: [volB - volA]. *)
Definition compareVolume (a b : BoxToPlace) : Q :=
  let volA := specVolume (btp_boxType a) in
  let volB := specVolume (btp_boxType b) in
  volB - volA.

(** Comparator of [spaces.sort]: by [y], then [x], then [z]. *)
Definition compareSpaces (a b : Space) : Q :=
  if negb (Qeq_bool (sp_y a) (sp_y b)) then sp_y a - sp_y b
  else if negb (Qeq_bool (sp_x a) (sp_x b)) then sp_x a - sp_x b
  else sp_z a - sp_z b.

(** The [filter] that removes very small spaces. *)
Definition bigEnough (s : Space) : bool :=
  Qltb 1 (sp_length s) && Qltb 1 (sp_width s) && Qltb 1 (sp_height s).

(** The [for (const [rotL, rotW, rotH] of rotations)] loop: the first
    rotation that fits the space and passes the fragility check. *)
Fixpoint tryRotations (packedBoxes : list PackedBox) (bt : BoxType)
    (space : Space) (rotations : list (Q * Q * Q)) : option (Q * Q * Q) :=
  match rotations with
  | [] => None
  | (rotL, rotW, rotH) :: rotations' =>
    if negb (boxFitsInSpace rotL rotW rotH space) then
      tryRotations packedBoxes bt space rotations'
    else
      let pos := mkPosition (sp_x space) (sp_y space) (sp_z space) in
      let dims := mkDimensions rotL rotW rotH in
      if negb (checkFragilityConstraint packedBoxes bt pos dims) then
        tryRotations packedBoxes bt space rotations'
      else Some (rotL, rotW, rotH)
  end.

(** [spaces.splice(spaceIdx, 1, ...newSpaces)] *)
Definition splice (spaces : list Space) (spaceIdx : nat) (newSpaces : list Space)
  : list Space :=
  firstn spaceIdx spaces ++ newSpaces ++ skipn (S spaceIdx) spaces.

(** [unpackedCounts : Map<string, number>], in insertion order. *)
Definition CountMap := list (string * Z).

Fixpoint map_get (m : CountMap) (k : string) : option Z :=
  match m with
  | [] => None
  | (k', v) :: m' => if String.eqb k' k then Some v else map_get m' k
  end.

Fixpoint map_set (m : CountMap) (k : string) (v : Z) : CountMap :=
  match m with
  | [] => [(k, v)]
  | (k', v') :: m' =>
    if String.eqb k' k then (k', v) :: m' else (k', v') :: map_set m' k v
  end.

(** [unpackedCounts.get(id) || 0] *)
Definition getCount (m : CountMap) (k : string) : Z :=
  match map_get m k with
  | Some c => if (c =? 0)%Z then 0%Z else c
  | None => 0%Z
  end.

Record PackState := mkPackState {
  st_spaces : list Space;
  st_packedBoxes : list PackedBox;
  st_unpackedCounts : CountMap
}.

Definition initialState (container : Container) : PackState :=
  {| st_spaces := [ {| sp_x := 0; sp_y := 0; sp_z := 0;
                       sp_length := ct_length container;
                       sp_width := ct_width container;
                       sp_height := ct_height container |} ];
     st_packedBoxes := [];
     st_unpackedCounts := [] |}.

(** [boxTypes.find((b) => b.id === id)] *)
Definition findBoxType (boxTypes : list BoxType) (id : string) : option BoxType :=
  find (fun b => String.eqb (bt_id b) id) boxTypes.

Definition withQuantity (bt : BoxType) (count : Z) : BoxType :=
  {| bt_id := bt_id bt; bt_name := bt_name bt;
     bt_length := bt_length bt; bt_width := bt_width bt;
     bt_height := bt_height bt; bt_weight := bt_weight bt;
     isFragile := isFragile bt; bt_color := bt_color bt;
     quantity := count |}.

(** The loop that builds the [unpacked] list from [unpackedCounts]. *)
Fixpoint buildUnpacked (boxTypes : list BoxType) (counts : CountMap)
  : list BoxType :=
  match counts with
  | [] => []
  | (id, count) :: counts' =>
    match findBoxType boxTypes id with
    | Some bt => withQuantity bt count :: buildUnpacked boxTypes counts'
    | None => buildUnpacked boxTypes counts'
    end
  end.

Definition effectiveVolume (b : PackedBox) : Q :=
  dim_length (dimensions b) * dim_width (dimensions b) * dim_height (dimensions b).

(** The language fixes the outcome of [Array.prototype.sort], not the
    procedure that computes it.  The engine is therefore written over the
    two sorting procedures it calls: [sortUnits] stands for
    [boxesToPlace.sort(...)] and [sortSpaces] for [spaces.sort(...)]. *)
Section Engine.
Variable sortUnits : list BoxToPlace -> list BoxToPlace.
Variable sortSpaces : list Space -> list Space.

(** What happens once a rotation has been accepted for [space]. *)
Definition placeAtWith (bt : BoxType) (index : nat) (spaces : list Space)
    (spaceIdx : nat) (space : Space) (rot : Q * Q * Q)
  : PackedBox * list Space :=
  let '(rotL, rotW, rotH) := rot in
  let packedBox :=
    {| pb_id := packedBoxId bt index;
       boxType := bt;
       position := mkPosition (sp_x space) (sp_y space) (sp_z space);
       rotation := getRotationFromDimensions bt (rotL, rotW, rotH);
       dimensions := mkDimensions rotL rotW rotH |} in
  let newSpaces := splitSpace space rotL rotW rotH in
  let spaces := splice spaces spaceIdx newSpaces in
  let spaces := sortSpaces spaces in
  let spaces := filter bigEnough spaces in
  (packedBox, spaces).

(** The [for (let spaceIdx = 0; spaceIdx < spaces.length && !placed; ...)]
    loop; [rest] is [spaces] from index [spaceIdx] on. *)
Fixpoint trySpacesWith (packedBoxes : list PackedBox) (bt : BoxType)
    (index : nat) (spaces : list Space) (spaceIdx : nat) (rest : list Space)
  : option (PackedBox * list Space) :=
  match rest with
  | [] => None
  | space :: rest' =>
    match tryRotations packedBoxes bt space (getRotations bt) with
    | Some rot => Some (placeAtWith bt index spaces spaceIdx space rot)
    | None => trySpacesWith packedBoxes bt index spaces (S spaceIdx) rest'
    end
  end.

(** One iteration of [for (const boxToPlace of boxesToPlace)]. *)
Definition placeBoxWith (st : PackState) (boxToPlace : BoxToPlace)
  : PackState :=
  let bt := btp_boxType boxToPlace in
  let index := btp_index boxToPlace in
  match trySpacesWith (st_packedBoxes st) bt index
          (st_spaces st) 0 (st_spaces st) with
  | Some (packedBox, spaces) =>
    {| st_spaces := spaces;
       st_packedBoxes := st_packedBoxes st ++ [packedBox];
       st_unpackedCounts := st_unpackedCounts st |}
  | None =>
    let count := getCount (st_unpackedCounts st) (bt_id bt) in
    {| st_spaces := st_spaces st;
       st_packedBoxes := st_packedBoxes st;
       st_unpackedCounts :=
         map_set (st_unpackedCounts st) (bt_id bt) (count + 1)%Z |}
  end.

Definition runLoopWith (st : PackState) (boxesToPlace : list BoxToPlace)
  : PackState :=
  fold_left placeBoxWith boxesToPlace st.

Definition packBoxesWith (container : Container) (boxTypes : list BoxType)
  : PackingResult :=
  let boxesToPlace := expandBoxTypes boxTypes in
  let boxesToPlace := sortUnits boxesToPlace in
  let final := runLoopWith (initialState container) boxesToPlace in
  let packedBoxes := st_packedBoxes final in
  let unpacked := buildUnpacked boxTypes (st_unpackedCounts final) in
  let containerVolume :=
    ct_length container * ct_width container * ct_height container in
  let usedVolume :=
    fold_left (fun sum box => sum + effectiveVolume box) packedBoxes 0 in
  let totalWeight :=
    fold_left (fun sum box => sum + bt_weight (boxType box)) packedBoxes 0 in
  let totalBoxes := Z.of_nat (List.length boxesToPlace) in
  let stats :=
    {| totalBoxes := totalBoxes;
       packedBoxesCount := Z.of_nat (List.length packedBoxes);
       unpackedBoxes := (totalBoxes - Z.of_nat (List.length packedBoxes))%Z;
       containerVolume := containerVolume;
       usedVolume := usedVolume;
       utilizationPercent :=
         Math_round ((usedVolume / containerVolume) * 100 * 10) / 10;
       totalWeight := totalWeight |} in
  {| success := (0 <? List.length packedBoxes)%nat;
     boxes := packedBoxes;
     unpacked := unpacked;
     stats := stats |}.
End Engine.

(** The engine with the stable sort of this file. *)
Definition placeBox : PackState -> BoxToPlace -> PackState :=
  placeBoxWith (sort compareSpaces).

Definition runLoop : PackState -> list BoxToPlace -> PackState :=
  runLoopWith (sort compareSpaces).

Definition packBoxes : Container -> list BoxType -> PackingResult :=
  packBoxesWith (sort compareVolume) (sort compareSpaces).

(** A sorting procedure that meets the guarantee of the language. *)
Definition stableSorter {A : Type} (cmp : A -> A -> Q)
    (srt : list A -> list A) : Prop :=
  forall l, stableSortOf cmp l (srt l).

(** ** Valid inputs *)

Definition validContainer (c : Container) : Prop :=
  0 < ct_length c /\ 0 < ct_width c /\ 0 < ct_height c.

Definition validBoxType (b : BoxType) : Prop :=
  0 < bt_length b /\ 0 < bt_width b /\ 0 < bt_height b /\ (0 <= quantity b)%Z.

Definition validInput (c : Container) (boxTypes : list BoxType) : Prop :=
  validContainer c /\ Forall validBoxType boxTypes.

(** ** Geometry of spaces and placed boxes

    [length] runs along x, [height] along y (the vertical axis) and [width]
    along z, for spaces and for placed boxes alike. *)

Record Region := mkRegion {
  r_x : Q; r_y : Q; r_z : Q;
  r_dx : Q; r_dy : Q; r_dz : Q
}.

Definition spaceRegion (s : Space) : Region :=
  mkRegion (sp_x s) (sp_y s) (sp_z s) (sp_length s) (sp_height s) (sp_width s).

Definition boxRegion (b : PackedBox) : Region :=
  mkRegion (pos_x (position b)) (pos_y (position b)) (pos_z (position b))
           (dim_length (dimensions b)) (dim_height (dimensions b))
           (dim_width (dimensions b)).

Definition containerRegion (c : Container) : Region :=
  mkRegion 0 0 0 (ct_length c) (ct_height c) (ct_width c).

Definition Point : Type := Q * Q * Q.

(** Membership of a point in the half-open region
    [[x, x+dx) * [y, y+dy) * [z, z+dz)]. *)
Definition inRegion (p : Point) (r : Region) : Prop :=
  let '(px, py, pz) := p in
  r_x r <= px /\ px < r_x r + r_dx r /\
  r_y r <= py /\ py < r_y r + r_dy r /\
  r_z r <= pz /\ pz < r_z r + r_dz r.

(** Two regions overlap in volume when they share a point. *)
Definition overlapInVolume (a b : Region) : Prop :=
  exists p, inRegion p a /\ inRegion p b.

(** Separation along one of the three axes. *)
Definition disjoint (a b : Region) : Prop :=
  r_x a + r_dx a <= r_x b \/ r_x b + r_dx b <= r_x a \/
  r_y a + r_dy a <= r_y b \/ r_y b + r_dy b <= r_y a \/
  r_z a + r_dz a <= r_z b \/ r_z b + r_dz b <= r_z a.

(** Separation of the x/z footprints. *)
Definition footDisjoint (a b : Region) : Prop :=
  r_x a + r_dx a <= r_x b \/ r_x b + r_dx b <= r_x a \/
  r_z a + r_dz a <= r_z b \/ r_z b + r_dz b <= r_z a.

Definition footOverlap (a b : Region) : Prop :=
  r_x a < r_x b + r_dx b /\ r_x b < r_x a + r_dx a /\
  r_z a < r_z b + r_dz b /\ r_z b < r_z a + r_dz a.

(** [a] lies inside [b], closed upper faces included. *)
Definition within (a b : Region) : Prop :=
  r_x b <= r_x a /\ r_x a + r_dx a <= r_x b + r_dx b /\
  r_y b <= r_y a /\ r_y a + r_dy a <= r_y b + r_dy b /\
  r_z b <= r_z a /\ r_z a + r_dz a <= r_z b + r_dz b.

Definition positiveExtents (r : Region) : Prop :=
  0 < r_dx r /\ 0 < r_dy r /\ 0 < r_dz r.

(** The occupied region of a placed box stays inside the container and its
    corner has non-negative coordinates. *)
Definition insideContainer (c : Container) (b : PackedBox) : Prop :=
  0 <= pos_x (position b) /\ 0 <= pos_y (position b) /\ 0 <= pos_z (position b) /\
  pos_x (position b) + dim_length (dimensions b) <= ct_length c /\
  pos_y (position b) + dim_height (dimensions b) <= ct_height c /\
  pos_z (position b) + dim_width (dimensions b) <= ct_width c.

(** ** The fragility property of the specification

    [restsOn f b]: the bottom face of [b] is at the level of the top face of
    [f] (within 0.1) and the footprints of [b] and [f] overlap. *)
Definition restsOn (f b : PackedBox) : bool :=
  Qltb (Qabs (pos_y (position b)
              - (pos_y (position f) + dim_height (dimensions f)))) (1 # 10)
  && (Qltb (pos_x (position b)) (pos_x (position f) + dim_length (dimensions f))
      && Qltb (pos_x (position f)) (pos_x (position b) + dim_length (dimensions b)))
  && (Qltb (pos_z (position b)) (pos_z (position f) + dim_width (dimensions f))
      && Qltb (pos_z (position f)) (pos_z (position b) + dim_width (dimensions b))).

Definition countRestingOn (placed : list PackedBox) (f : PackedBox) : nat :=
  List.length (filter (restsOn f) placed).

(** ** One iteration of the main loop, as a relation *)

Definition placedBoxAt (bt : BoxType) (index : nat) (space : Space)
    (rot : Q * Q * Q) : PackedBox :=
  let '(rotL, rotW, rotH) := rot in
  {| pb_id := packedBoxId bt index;
     boxType := bt;
     position := mkPosition (sp_x space) (sp_y space) (sp_z space);
     rotation := getRotationFromDimensions bt (rotL, rotW, rotH);
     dimensions := mkDimensions rotL rotW rotH |}.

Inductive step (u : BoxToPlace) (st : PackState) : PackState -> Prop :=
| step_placed (l1 l2 : list Space) (space : Space) (rotL rotW rotH : Q) :
    st_spaces st = l1 ++ space :: l2 ->
    In (rotL, rotW, rotH) (getRotations (btp_boxType u)) ->
    boxFitsInSpace rotL rotW rotH space = true ->
    checkFragilityConstraint (st_packedBoxes st) (btp_boxType u)
      (mkPosition (sp_x space) (sp_y space) (sp_z space))
      (mkDimensions rotL rotW rotH) = true ->
    step u st
      {| st_spaces :=
           filter bigEnough
             (sort compareSpaces (l1 ++ splitSpace space rotL rotW rotH ++ l2));
         st_packedBoxes :=
           st_packedBoxes st
           ++ [placedBoxAt (btp_boxType u) (btp_index u) space (rotL, rotW, rotH)];
         st_unpackedCounts := st_unpackedCounts st |}
| step_unpacked :
    step u st
      {| st_spaces := st_spaces st;
         st_packedBoxes := st_packedBoxes st;
         st_unpackedCounts :=
           map_set (st_unpackedCounts st) (bt_id (btp_boxType u))
                   (getCount (st_unpackedCounts st) (bt_id (btp_boxType u)) + 1)%Z |}.

(** Sum of the counts held in [unpackedCounts]. *)
Definition sumCounts (m : CountMap) : Z :=
  fold_right (fun kv acc => (snd kv + acc)%Z) 0%Z m.

Definition sumQuantities (bs : list BoxType) : Z :=
  fold_right (fun b acc => (quantity b + acc)%Z) 0%Z bs.

(** ** The residual spaces of a guillotine split *)

Definition residualRight (s : Space) (bl : Q) : Space :=
  mkSpace (sp_x s + bl) (sp_y s) (sp_z s)
          (sp_length s - bl) (sp_width s) (sp_height s).

Definition residualFront (s : Space) (bl bw : Q) : Space :=
  mkSpace (sp_x s) (sp_y s) (sp_z s + bw)
          bl (sp_width s - bw) (sp_height s).

Definition residualAbove (s : Space) (bl bw bh : Q) : Space :=
  mkSpace (sp_x s) (sp_y s + bh) (sp_z s)
          bl bw (sp_height s - bh).

(** The region a box with extents [(bl, bw, bh)] occupies at the origin of
    [s]. *)
Definition placedRegion (s : Space) (bl bw bh : Q) : Region :=
  mkRegion (sp_x s) (sp_y s) (sp_z s) bl bh bw.

(** ** Invariants of the main loop *)

Definition spDisjoint (s t : Space) : Prop :=
  disjoint (spaceRegion s) (spaceRegion t).

Definition spFootDisjoint (s t : Space) : Prop :=
  footDisjoint (spaceRegion s) (spaceRegion t).

Definition bxDisjoint (a b : PackedBox) : Prop :=
  disjoint (boxRegion a) (boxRegion b).

(** The effective dimensions of a placed box are one of the orientation
    candidates of a valid box type. *)
Definition orientedFromSpec (b : PackedBox) : Prop :=
  validBoxType (boxType b) /\
  In (dim_length (dimensions b), dim_width (dimensions b),
      dim_height (dimensions b))
     (getRotations (boxType b)).

(** A placed box carries a requested box type and one of its orientation
    candidates. *)
Definition fromSpecs (boxTypes : list BoxType) (b : PackedBox) : Prop :=
  In (boxType b) boxTypes /\
  In (dim_length (dimensions b), dim_width (dimensions b),
      dim_height (dimensions b))
     (getRotations (boxType b)).

Record geomInv (c : Container) (st : PackState) : Prop := mkGeomInv {
  inv_spaces_within :
    Forall (fun s => within (spaceRegion s) (containerRegion c)) (st_spaces st);
  inv_spaces_positive :
    Forall (fun s => positiveExtents (spaceRegion s)) (st_spaces st);
  inv_spaces_disjoint : ForallOrdPairs spDisjoint (st_spaces st);
  inv_spaces_foot : ForallOrdPairs spFootDisjoint (st_spaces st);
  inv_space_box :
    forall s b, In s (st_spaces st) -> In b (st_packedBoxes st) ->
                disjoint (spaceRegion s) (boxRegion b);
  inv_space_above_box :
    forall s b, In s (st_spaces st) -> In b (st_packedBoxes st) ->
                footOverlap (spaceRegion s) (boxRegion b) ->
                r_y (boxRegion b) + r_dy (boxRegion b) <= sp_y s;
  inv_boxes_disjoint : ForallOrdPairs bxDisjoint (st_packedBoxes st);
  inv_boxes_within : Forall (insideContainer c) (st_packedBoxes st);
  inv_boxes_oriented : Forall orientedFromSpec (st_packedBoxes st)
}.

(** The free-space list: sub-volumes of the container, pairwise without a
    common point, and without a common point with any placed box. *)
Definition freeSpaceInvariant (c : Container) (st : PackState) : Prop :=
  Forall (fun s => within (spaceRegion s) (containerRegion c)) (st_spaces st) /\
  ForallOrdPairs
    (fun s t => ~ overlapInVolume (spaceRegion s) (spaceRegion t))
    (st_spaces st) /\
  (forall s b, In s (st_spaces st) -> In b (st_packedBoxes st) ->
               ~ overlapInVolume (spaceRegion s) (boxRegion b)).

(** The units the main loop iterates over. *)
Definition unitsOf (boxTypes : list BoxType) : list BoxToPlace :=
  sort compareVolume (expandBoxTypes boxTypes).

(** The state of the main loop after its first [n] iterations. *)
Definition stateAfter (c : Container) (boxTypes : list BoxType) (n : nat)
  : PackState :=
  runLoop (initialState c) (firstn n (unitsOf boxTypes)).

(** [id] is the identifier of one of the requested box types. *)
Definition requestedId (boxTypes : list BoxType) (id : string) : Prop :=
  exists bt, In bt boxTypes /\ bt_id bt = id.

(** ** Sample inputs *)

Definition sample_container : Container := mkContainer 100 100 100.
Definition sample_boxTypes : list BoxType :=
  [ mkBoxType "crate" "Crate" 60 50 40 12 false "#4ECDC4" 2;
    mkBoxType "vase" "Vase" 30 20 15 3 true "#FF6B6B" 3 ].

(** A fragile base that covers the floor of the container and four parcels,
    each a quarter of its footprint: two parcels come to rest on the base,
    the fragility rule sends the other two on top of those. *)
Definition stack_container : Container := mkContainer 20 20 100.
Definition stack_boxTypes : list BoxType :=
  [ mkBoxType "base" "Base" 20 20 5 8 true "#FF6B6B" 1;
    mkBoxType "parcel" "Parcel" 10 10 5 2 false "#4ECDC4" 4 ].

(** ** The empty container *)

(** The only space of the initial state. *)
Definition containerSpace (c : Container) : Space :=
  mkSpace 0 0 0 (ct_length c) (ct_width c) (ct_height c).

(** Some orientation candidate of the box type fits the space. *)
Definition fitsInSomeRotation (bt : BoxType) (s : Space) : bool :=
  existsb (fun rot => let '(l, w, h) := rot in boxFitsInSpace l w h s)
          (getRotations bt).

(** Nothing has been placed yet. *)
Definition pristine (c : Container) (st : PackState) : Prop :=
  st_spaces st = [containerSpace c] /\ st_packedBoxes st = [].

(** ** Counting per box type *)

Definition typeHasId (id : string) (bt : BoxType) : bool :=
  String.eqb (bt_id bt) id.

(** Number of placed boxes whose box type carries the identifier [id]. *)
Definition placedWithId (id : string) (packedBoxes : list PackedBox) : Z :=
  Z.of_nat (List.length
              (filter (fun b => typeHasId id (boxType b)) packedBoxes)).

Definition unitsWithId (id : string) (units : list BoxToPlace) : Z :=
  Z.of_nat (List.length
              (filter (fun u => typeHasId id (btp_boxType u)) units)).

(** ** Order of placement *)


(** ** The fragility check on a candidate placement *)

Definition restsOnAt (f : PackedBox) (pos : Position) (dims : Dimensions) : bool :=
  Qltb (Qabs (pos_y pos - (pos_y (position f) + dim_height (dimensions f))))
       (1 # 10)
  && (Qltb (pos_x pos) (pos_x (position f) + dim_length (dimensions f))
      && Qltb (pos_x (position f)) (pos_x pos + dim_length dims))
  && (Qltb (pos_z pos) (pos_z (position f) + dim_width (dimensions f))
      && Qltb (pos_z (position f)) (pos_z pos + dim_width dims)).

(** ** Identifiers of placed boxes *)

(** The identifier a unit receives when it is placed. *)
Definition unitId (u : BoxToPlace) : string :=
  packedBoxId (btp_boxType u) (btp_index u).

Fixpoint noUnderscore (s : string) : Prop :=
  match s with
  | EmptyString => True
  | String a s' => a <> "_"%char /\ noUnderscore s'
  end.

(** ** The input form ([components/InputForm.tsx]) and the application
    ([App.tsx]) *)

Record InputData := mkInputData {
  in_container : Container;
  in_boxTypes : list BoxType
}.

(** What [handleSubmit] of the form does: it raises an alert or hands the
    data to [onSubmit]. *)
Inductive SubmitOutcome :=
| Alert (message : string)
| Submit (data : InputData).

Definition quote : string := String (ascii_of_nat 34) EmptyString.

Definition invalidDimensionsMessage (box : BoxType) : string :=
  ("Box " ++ quote ++ bt_name box ++ quote ++ " has invalid dimensions")%string.

Definition invalidQuantityMessage (box : BoxType) : string :=
  ("Box " ++ quote ++ bt_name box ++ quote
   ++ " must have at least 1 quantity")%string.

(** The [for (const box of boxTypes)] loop of the validation: the first
    alert it raises, if any. *)
Fixpoint validateBoxTypes (boxTypes : list BoxType) : option string :=
  match boxTypes with
  | [] => None
  | box :: rest =>
    if Qle_bool (bt_length box) 0 || Qle_bool (bt_width box) 0
       || Qle_bool (bt_height box) 0
    then Some (invalidDimensionsMessage box)
    else if (quantity box <=? 0)%Z
    then Some (invalidQuantityMessage box)
    else validateBoxTypes rest
  end.

Definition InputForm_handleSubmit (container : Container)
    (boxTypes : list BoxType) : SubmitOutcome :=
  if Qle_bool (ct_length container) 0 || Qle_bool (ct_width container) 0
     || Qle_bool (ct_height container) 0
  then Alert "Container dimensions must be positive numbers"
  else if (List.length boxTypes =? 0)%nat
  then Alert "Please add at least one box type"
  else match validateBoxTypes boxTypes with
       | Some message => Alert message
       | None => Submit (mkInputData container boxTypes)
       end.

Inductive AppView := InputView | VisualizerView.

Record AppState := mkAppState {
  currentView : AppView;
  inputData : InputData;
  packingResult : option PackingResult
}.

Definition App_handleSubmit (st : AppState) (data : InputData) : AppState :=
  let result := packBoxes (in_container data) (in_boxTypes data) in
  {| currentView := VisualizerView;
     inputData := data;
     packingResult := Some result |}.

Definition App_handleBack (st : AppState) : AppState :=
  {| currentView := InputView;
     inputData := inputData st;
     packingResult := packingResult st |}.

(** The form is mounted with [onSubmit={handleSubmit}]: pressing its submit
    button runs the validation and, when it passes, the handler of the
    application. *)
Definition submitForm (st : AppState) (container : Container)
    (boxTypes : list BoxType) : AppState :=
  match InputForm_handleSubmit container boxTypes with
  | Alert _ => st
  | Submit data => App_handleSubmit st data
  end.

(** What the form accepts. *)
Definition acceptedByForm (container : Container) (boxTypes : list BoxType)
  : Prop :=
  validContainer container /\ boxTypes <> [] /\
  Forall (fun b => 0 < bt_length b /\ 0 < bt_width b /\ 0 < bt_height b /\
                   (1 <= quantity b)%Z) boxTypes.

(** Editing the list of box types in the form. *)
Definition handleSaveBox (editingBox : option BoxType) (box : BoxType)
    (prev : list BoxType) : list BoxType :=
  match editingBox with
  | Some _ => map (fun b => if String.eqb (bt_id b) (bt_id box) then box else b) prev
  | None => prev ++ [box]
  end.

Definition handleRemoveBox (id : string) (prev : list BoxType) : list BoxType :=
  filter (fun box => negb (String.eqb (bt_id box) id)) prev.

(** ** The visualizer ([components/Visualizer3D.tsx]) *)

Definition handleQuantityChange (boxTypeId : string) (newQuantity : Z)
    (prev : list BoxType) : list BoxType :=
  map (fun bt => if String.eqb (bt_id bt) boxTypeId
                 then withQuantity bt (Z.max 0 newQuantity)
                 else bt) prev.

(** A run of quantity edits, each an identifier and a new quantity. *)
Definition applyQuantityEdits (edits : list (string * Z))
    (boxTypes : list BoxType) : list BoxType :=
  fold_left (fun bts e => handleQuantityChange (fst e) (snd e) bts)
            edits boxTypes.







(** ** Colours ([utils/sampleData.ts]) *)

Definition colorPalette : list string :=
  [ "#FF6B6B"; "#4ECDC4"; "#95E1D3"; "#F38181"; "#FCE38A";
    "#A8D8EA"; "#AA96DA"; "#FCBAD3"; "#F9ED69"; "#6A0572" ]%string.

(** [usedColors.includes(c)] *)
Definition includes (l : list string) (c : string) : bool :=
  existsb (String.eqb c) l.

(** [randomIndex] stands for
    [Math.floor(Math.random() * colorPalette.length)]; an index outside
    the palette reads [undefined], here the empty string. *)
Definition getNextColor (usedColors : list string) (randomIndex : nat) : string :=
  let available := find (fun c => negb (includes usedColors c)) colorPalette in
  match available with
  | Some c => if String.eqb c EmptyString
              then nth randomIndex colorPalette EmptyString else c
  | None => nth randomIndex colorPalette EmptyString
  end.

(** * The engine over IEEE binary64

    The program computes with [number], the IEEE binary64 format, where
    every sum, difference, product and quotient is rounded to the nearest
    representable value.  The definitions above replace these operations by
    the exact ones of [Q]; they serve the properties that rest on the
    control flow and on comparisons of values the program copies.  The
    module below is the same engine, function by function, over the
    primitive binary64 numbers of Rocq, whose operations are those of the
    processor.  Properties that depend on the results of additions,
    subtractions and products are stated over it. *)

Module Binary64.

Local Open Scope float_scope.

(** [number] *)
Definition number : Set := float.

(** The real number a finite binary64 value stands for; [0] for [NaN] and
    the infinities. *)
Definition valueOf (x : number) : Q :=
  match Prim2SF x with
  | S754_finite s m e =>
    let v := if (0 <=? e)%Z then inject_Z (Z.pos m * 2 ^ e)
             else Z.pos m # Z.to_pos (2 ^ (- e)) in
    Qred (if s then (- v)%Q else v)
  | _ => 0%Q
  end.

(** An integer of magnitude below [2^53] as a [number]. *)
Definition ofInteger (negative : bool) (n : Z) : number :=
  let magnitude := of_uint63 (Uint63.of_Z (Z.abs n)) in
  if negative then - magnitude else magnitude.

(** [Math.round]: the nearest integer, ties towards plus infinity; a value
    without fractional part, an infinity and [NaN] are returned as they
    are, and a result of zero keeps the sign of the argument. *)
Definition Math_round (x : number) : number :=
  match Prim2SF x with
  | S754_finite s m e =>
    if (0 <=? e)%Z then x
    else
      let d := (2 ^ (- e))%Z in
      let n := if s then (- Z.pos m)%Z else Z.pos m in
      let r := ((2 * n + d) / (2 * d))%Z in
      ofInteger (if (r =? 0)%Z then s else (r <? 0)%Z) r
  | _ => x
  end.

(** ** Data model ([types/index.ts]) *)

Record Container := mkContainer {
  ct_length : number;
  ct_width : number;
  ct_height : number
}.

Record BoxType := mkBoxType {
  bt_id : string;
  bt_name : string;
  bt_length : number;
  bt_width : number;
  bt_height : number;
  bt_weight : number;
  isFragile : bool;
  bt_color : string;
  quantity : Z
}.

Record Position := mkPosition { pos_x : number; pos_y : number; pos_z : number }.

Record Dimensions := mkDimensions {
  dim_length : number;
  dim_width : number;
  dim_height : number
}.

Record PackedBox := mkPackedBox {
  pb_id : string;
  boxType : BoxType;
  position : Position;
  rotation : Rotation;
  dimensions : Dimensions
}.

Record PackingStats := mkPackingStats {
  totalBoxes : Z;
  packedBoxesCount : Z;
  unpackedBoxes : Z;
  containerVolume : number;
  usedVolume : number;
  utilizationPercent : number;
  totalWeight : number
}.

Record PackingResult := mkPackingResult {
  success : bool;
  boxes : list PackedBox;
  unpacked : list BoxType;
  stats : PackingStats
}.

Record BoxToPlace := mkBoxToPlace {
  btp_boxType : BoxType;
  btp_index : nat
}.

Record Space := mkSpace {
  sp_x : number;
  sp_y : number;
  sp_z : number;
  sp_length : number;
  sp_width : number;
  sp_height : number
}.

(** ** [Array.prototype.sort] with a comparator

    An element [a] stays in front of [b] unless [cmp a b > 0]; a comparator
    result of [NaN] counts as [+0].  The sort is stable, here realised by
    insertion. *)

Section Sort.
Context {A : Type} (cmp : A -> A -> number).

Fixpoint insert (a : A) (l : list A) : list A :=
  match l with
  | [] => [a]
  | b :: l' => if 0 <? cmp a b then b :: insert a l' else a :: l
  end.

Definition sort (l : list A) : list A := fold_right insert [] l.
End Sort.

(** ** The packing algorithm ([services/PackingAlgorithm.ts]) *)

Definition boxFitsInSpace (boxL boxW boxH : number) (space : Space) : bool :=
  (boxL <=? sp_length space) && (boxW <=? sp_width space)
  && (boxH <=? sp_height space).

Definition getRotations (box : BoxType) : list (number * number * number) :=
  let l := bt_length box in
  let w := bt_width box in
  let h := bt_height box in
  if isFragile box then
    [ (l, w, h); (w, l, h) ]
  else
    [ (l, w, h); (l, h, w); (w, l, h); (w, h, l); (h, l, w); (h, w, l) ].

Definition getRotationFromDimensions (original : BoxType)
    (rotated : number * number * number) : Rotation :=
  let '(rl, rw, rh) := rotated in
  if (rl =? bt_length original) && (rw =? bt_width original)
     && (rh =? bt_height original)
  then mkRotation Angle0 Angle0 Angle0
  else if (rl =? bt_width original) && (rw =? bt_length original)
          && (rh =? bt_height original)
  then mkRotation Angle0 AngleHalfPi Angle0
  else mkRotation Angle0 Angle0 Angle0.

(** [Math.abs(y - top) < 0.1] *)
Definition nearLevel (y top : number) : bool := abs (y - top) <? 0.1.

Definition fragileTopOf (packed : PackedBox) : number :=
  pos_y (position packed) + dim_height (dimensions packed).

(** The predicate of the [filter] that computes [stackCount]. *)
Definition stackedOn (packed b : PackedBox) : bool :=
  nearLevel (pos_y (position b)) (fragileTopOf packed)
  && (pos_x (position b)
      <? pos_x (position packed) + dim_length (dimensions packed))
  && (pos_x (position packed)
      <? pos_x (position b) + dim_length (dimensions b))
  && (pos_z (position b)
      <? pos_z (position packed) + dim_width (dimensions packed))
  && (pos_z (position packed)
      <? pos_z (position b) + dim_width (dimensions b)).

Definition stackCount (packedBoxes : list PackedBox) (packed : PackedBox) : nat :=
  List.length (filter (stackedOn packed) packedBoxes).

(** The body of the [for (const packed of packedBoxes)] loop; [rest] is what
    remains to be visited, [packedBoxes] the whole array (used by the
    [filter]). *)
Fixpoint fragilityLoop (packedBoxes rest : list PackedBox)
    (pos : Position) (dims : Dimensions) : bool :=
  match rest with
  | [] => true
  | packed :: rest' =>
    if negb (isFragile (boxType packed)) then
      fragilityLoop packedBoxes rest' pos dims
    else
      let fragileTop := fragileTopOf packed in
      if nearLevel (pos_y pos) fragileTop then
        let overlapX :=
          (pos_x pos <? pos_x (position packed) + dim_length (dimensions packed))
          && (pos_x (position packed) <? pos_x pos + dim_length dims) in
        let overlapZ :=
          (pos_z pos <? pos_z (position packed) + dim_width (dimensions packed))
          && (pos_z (position packed) <? pos_z pos + dim_width dims) in
        if overlapX && overlapZ then
          if (2 <=? stackCount packedBoxes packed)%nat then false
          else fragilityLoop packedBoxes rest' pos dims
        else fragilityLoop packedBoxes rest' pos dims
      else fragilityLoop packedBoxes rest' pos dims
  end.

Definition checkFragilityConstraint (packedBoxes : list PackedBox)
    (newBox : BoxType) (pos : Position) (dims : Dimensions) : bool :=
  fragilityLoop packedBoxes packedBoxes pos dims.

Definition splitSpace (space : Space) (boxL boxW boxH : number) : list Space :=
  let newSpaces := [] in
  let newSpaces :=
    if 0 <? sp_length space - boxL then
      newSpaces ++ [ {| sp_x := sp_x space + boxL;
                        sp_y := sp_y space;
                        sp_z := sp_z space;
                        sp_length := sp_length space - boxL;
                        sp_width := sp_width space;
                        sp_height := sp_height space |} ]
    else newSpaces in
  let newSpaces :=
    if 0 <? sp_width space - boxW then
      newSpaces ++ [ {| sp_x := sp_x space;
                        sp_y := sp_y space;
                        sp_z := sp_z space + boxW;
                        sp_length := boxL;
                        sp_width := sp_width space - boxW;
                        sp_height := sp_height space |} ]
    else newSpaces in
  let newSpaces :=
    if 0 <? sp_height space - boxH then
      newSpaces ++ [ {| sp_x := sp_x space;
                        sp_y := sp_y space + boxH;
                        sp_z := sp_z space;
                        sp_length := boxL;
                        sp_width := boxW;
                        sp_height := sp_height space - boxH |} ]
    else newSpaces in
  newSpaces.

(** [`${boxType.id}_${index}`] *)
Definition packedBoxId (bt : BoxType) (index : nat) : string :=
  (bt_id bt ++ "_" ++ NilZero.string_of_uint (Nat.to_uint index))%string.

Definition expandBoxType (bt : BoxType) : list BoxToPlace :=
  map (mkBoxToPlace bt) (seq 0 (Z.to_nat (quantity bt))).

Definition expandBoxTypes (boxTypes : list BoxType) : list BoxToPlace :=
  flat_map expandBoxType boxTypes.

(** [boxType.length * boxType.width * boxType.height] *)
Definition specVolume (bt : BoxType) : number :=
  bt_length bt * bt_width bt * bt_height bt.

(** Comparator of [boxesToPlace.sort]: [volB - volA]. *)
Definition compareVolume (a b : BoxToPlace) : number :=
  let volA := specVolume (btp_boxType a) in
  let volB := specVolume (btp_boxType b) in
  volB - volA.

(** Comparator of [spaces.sort]: by [y], then [x], then [z]. *)
Definition compareSpaces (a b : Space) : number :=
  if negb (sp_y a =? sp_y b) then sp_y a - sp_y b
  else if negb (sp_x a =? sp_x b) then sp_x a - sp_x b
  else sp_z a - sp_z b.

(** The [filter] that removes very small spaces. *)
Definition bigEnough (s : Space) : bool :=
  (1 <? sp_length s) && (1 <? sp_width s) && (1 <? sp_height s).

Fixpoint tryRotations (packedBoxes : list PackedBox) (bt : BoxType)
    (space : Space) (rotations : list (number * number * number))
  : option (number * number * number) :=
  match rotations with
  | [] => None
  | (rotL, rotW, rotH) :: rotations' =>
    if negb (boxFitsInSpace rotL rotW rotH space) then
      tryRotations packedBoxes bt space rotations'
    else
      let pos := mkPosition (sp_x space) (sp_y space) (sp_z space) in
      let dims := mkDimensions rotL rotW rotH in
      if negb (checkFragilityConstraint packedBoxes bt pos dims) then
        tryRotations packedBoxes bt space rotations'
      else Some (rotL, rotW, rotH)
  end.

(** [spaces.splice(spaceIdx, 1, ...newSpaces)] *)
Definition splice (spaces : list Space) (spaceIdx : nat) (newSpaces : list Space)
  : list Space :=
  firstn spaceIdx spaces ++ newSpaces ++ skipn (S spaceIdx) spaces.

Record PackState := mkPackState {
  st_spaces : list Space;
  st_packedBoxes : list PackedBox;
  st_unpackedCounts : CountMap
}.

Definition initialState (container : Container) : PackState :=
  {| st_spaces := [ {| sp_x := 0; sp_y := 0; sp_z := 0;
                       sp_length := ct_length container;
                       sp_width := ct_width container;
                       sp_height := ct_height container |} ];
     st_packedBoxes := [];
     st_unpackedCounts := [] |}.

(** [boxTypes.find((b) => b.id === id)] *)
Definition findBoxType (boxTypes : list BoxType) (id : string) : option BoxType :=
  find (fun b => String.eqb (bt_id b) id) boxTypes.

Definition withQuantity (bt : BoxType) (count : Z) : BoxType :=
  {| bt_id := bt_id bt; bt_name := bt_name bt;
     bt_length := bt_length bt; bt_width := bt_width bt;
     bt_height := bt_height bt; bt_weight := bt_weight bt;
     isFragile := isFragile bt; bt_color := bt_color bt;
     quantity := count |}.

Fixpoint buildUnpacked (boxTypes : list BoxType) (counts : CountMap)
  : list BoxType :=
  match counts with
  | [] => []
  | (id, count) :: counts' =>
    match findBoxType boxTypes id with
    | Some bt => withQuantity bt count :: buildUnpacked boxTypes counts'
    | None => buildUnpacked boxTypes counts'
    end
  end.

(** [box.dimensions.length * box.dimensions.width * box.dimensions.height] *)
Definition effectiveVolume (b : PackedBox) : number :=
  dim_length (dimensions b) * dim_width (dimensions b) * dim_height (dimensions b).

(** What happens once a rotation has been accepted for [space]. *)
Definition placeAt (bt : BoxType) (index : nat) (spaces : list Space)
    (spaceIdx : nat) (space : Space) (rot : number * number * number)
  : PackedBox * list Space :=
  let '(rotL, rotW, rotH) := rot in
  let packedBox :=
    {| pb_id := packedBoxId bt index;
       boxType := bt;
       position := mkPosition (sp_x space) (sp_y space) (sp_z space);
       rotation := getRotationFromDimensions bt (rotL, rotW, rotH);
       dimensions := mkDimensions rotL rotW rotH |} in
  let newSpaces := splitSpace space rotL rotW rotH in
  let spaces := splice spaces spaceIdx newSpaces in
  let spaces := sort compareSpaces spaces in
  let spaces := filter bigEnough spaces in
  (packedBox, spaces).

(** The [for (let spaceIdx = 0; spaceIdx < spaces.length && !placed; ...)]
    loop; [rest] is [spaces] from index [spaceIdx] on. *)
Fixpoint trySpaces (packedBoxes : list PackedBox) (bt : BoxType)
    (index : nat) (spaces : list Space) (spaceIdx : nat) (rest : list Space)
  : option (PackedBox * list Space) :=
  match rest with
  | [] => None
  | space :: rest' =>
    match tryRotations packedBoxes bt space (getRotations bt) with
    | Some rot => Some (placeAt bt index spaces spaceIdx space rot)
    | None => trySpaces packedBoxes bt index spaces (S spaceIdx) rest'
    end
  end.

(** One iteration of [for (const boxToPlace of boxesToPlace)]. *)
Definition placeBox (st : PackState) (boxToPlace : BoxToPlace) : PackState :=
  let bt := btp_boxType boxToPlace in
  let index := btp_index boxToPlace in
  match trySpaces (st_packedBoxes st) bt index
          (st_spaces st) 0 (st_spaces st) with
  | Some (packedBox, spaces) =>
    {| st_spaces := spaces;
       st_packedBoxes := st_packedBoxes st ++ [packedBox];
       st_unpackedCounts := st_unpackedCounts st |}
  | None =>
    let count := getCount (st_unpackedCounts st) (bt_id bt) in
    {| st_spaces := st_spaces st;
       st_packedBoxes := st_packedBoxes st;
       st_unpackedCounts :=
         map_set (st_unpackedCounts st) (bt_id bt) (count + 1)%Z |}
  end.

Definition runLoop (st : PackState) (boxesToPlace : list BoxToPlace)
  : PackState :=
  fold_left placeBox boxesToPlace st.

Definition packBoxes (container : Container) (boxTypes : list BoxType)
  : PackingResult :=
  let boxesToPlace := expandBoxTypes boxTypes in
  let boxesToPlace := sort compareVolume boxesToPlace in
  let final := runLoop (initialState container) boxesToPlace in
  let packedBoxes := st_packedBoxes final in
  let unpacked := buildUnpacked boxTypes (st_unpackedCounts final) in
  let containerVolume :=
    ct_length container * ct_width container * ct_height container in
  let usedVolume :=
    fold_left (fun sum box => sum + effectiveVolume box) packedBoxes 0 in
  let totalWeight :=
    fold_left (fun sum box => sum + bt_weight (boxType box)) packedBoxes 0 in
  let totalBoxes := Z.of_nat (List.length boxesToPlace) in
  let stats :=
    {| totalBoxes := totalBoxes;
       packedBoxesCount := Z.of_nat (List.length packedBoxes);
       unpackedBoxes := (totalBoxes - Z.of_nat (List.length packedBoxes))%Z;
       containerVolume := containerVolume;
       usedVolume := usedVolume;
       utilizationPercent :=
         Math_round ((usedVolume / containerVolume) * 100 * 10) / 10;
       totalWeight := totalWeight |} in
  {| success := (0 <? List.length packedBoxes)%nat;
     boxes := packedBoxes;
     unpacked := unpacked;
     stats := stats |}.

(** The units the main loop iterates over. *)
Definition unitsOf (boxTypes : list BoxType) : list BoxToPlace :=
  sort compareVolume (expandBoxTypes boxTypes).

(** The state of the main loop after its first [n] iterations. *)
Definition stateAfter (c : Container) (boxTypes : list BoxType) (n : nat)
  : PackState :=
  runLoop (initialState c) (firstn n (unitsOf boxTypes)).

(** ** Valid inputs *)

Definition validContainer (c : Container) : Prop :=
  (0 <? ct_length c) = true /\ (0 <? ct_width c) = true /\
  (0 <? ct_height c) = true.

Definition validBoxType (b : BoxType) : Prop :=
  (0 <? bt_length b) = true /\ (0 <? bt_width b) = true /\
  (0 <? bt_height b) = true /\ (0 <= quantity b)%Z.

Definition validInput (c : Container) (boxTypes : list BoxType) : Prop :=
  validContainer c /\ Forall validBoxType boxTypes.

(** ** Geometry, in the real numbers the binary64 values stand for *)

Definition spaceRegion (s : Space) : Region :=
  mkRegion (valueOf (sp_x s)) (valueOf (sp_y s)) (valueOf (sp_z s))
           (valueOf (sp_length s)) (valueOf (sp_height s))
           (valueOf (sp_width s)).

Definition boxRegion (b : PackedBox) : Region :=
  mkRegion (valueOf (pos_x (position b))) (valueOf (pos_y (position b)))
           (valueOf (pos_z (position b)))
           (valueOf (dim_length (dimensions b)))
           (valueOf (dim_height (dimensions b)))
           (valueOf (dim_width (dimensions b))).

Definition containerRegion (c : Container) : Region :=
  mkRegion 0 0 0 (valueOf (ct_length c)) (valueOf (ct_height c))
           (valueOf (ct_width c)).

(** ** The fragility property

    [restsOn f b]: the bottom face of [b] is at the level of the top face of
    [f] within 0.1 and the footprints of [b] and [f] overlap, each
    comparison as the program evaluates it. *)
Definition restsOn (f b : PackedBox) : bool :=
  (abs (pos_y (position b) - (pos_y (position f) + dim_height (dimensions f)))
   <? 0.1)
  && ((pos_x (position b) <? pos_x (position f) + dim_length (dimensions f))
      && (pos_x (position f) <? pos_x (position b) + dim_length (dimensions b)))
  && ((pos_z (position b) <? pos_z (position f) + dim_width (dimensions f))
      && (pos_z (position f) <? pos_z (position b) + dim_width (dimensions b))).

Definition countRestingOn (placed : list PackedBox) (f : PackedBox) : nat :=
  List.length (filter (restsOn f) placed).

(** The same relation in the real numbers the values stand for. *)
Definition restsOnExactly (f b : PackedBox) : bool :=
  let rf := boxRegion f in
  let rb := boxRegion b in
  Qltb (Qabs (r_y rb - (r_y rf + r_dy rf))) (1 # 10)
  && (Qltb (r_x rb) (r_x rf + r_dx rf) && Qltb (r_x rf) (r_x rb + r_dx rb))
  && (Qltb (r_z rb) (r_z rf + r_dz rf) && Qltb (r_z rf) (r_z rb + r_dz rb)).

(** ** One iteration of the main loop, as a relation *)

Definition placedBoxAt (bt : BoxType) (index : nat) (space : Space)
    (rot : number * number * number) : PackedBox :=
  let '(rotL, rotW, rotH) := rot in
  {| pb_id := packedBoxId bt index;
     boxType := bt;
     position := mkPosition (sp_x space) (sp_y space) (sp_z space);
     rotation := getRotationFromDimensions bt (rotL, rotW, rotH);
     dimensions := mkDimensions rotL rotW rotH |}.

Inductive step (u : BoxToPlace) (st : PackState) : PackState -> Prop :=
| step_placed (l1 l2 : list Space) (space : Space) (rotL rotW rotH : number) :
    st_spaces st = l1 ++ space :: l2 ->
    In (rotL, rotW, rotH) (getRotations (btp_boxType u)) ->
    boxFitsInSpace rotL rotW rotH space = true ->
    checkFragilityConstraint (st_packedBoxes st) (btp_boxType u)
      (mkPosition (sp_x space) (sp_y space) (sp_z space))
      (mkDimensions rotL rotW rotH) = true ->
    step u st
      {| st_spaces :=
           filter bigEnough
             (sort compareSpaces (l1 ++ splitSpace space rotL rotW rotH ++ l2));
         st_packedBoxes :=
           st_packedBoxes st
           ++ [placedBoxAt (btp_boxType u) (btp_index u) space (rotL, rotW, rotH)];
         st_unpackedCounts := st_unpackedCounts st |}
| step_unpacked :
    step u st
      {| st_spaces := st_spaces st;
         st_packedBoxes := st_packedBoxes st;
         st_unpackedCounts :=
           map_set (st_unpackedCounts st) (bt_id (btp_boxType u))
                   (getCount (st_unpackedCounts st) (bt_id (btp_boxType u)) + 1)%Z |}.

(** ** Invariants of the main loop *)

(** A placed box carries a requested box type and one of its orientation
    candidates. *)
Definition fromSpecs (boxTypes : list BoxType) (b : PackedBox) : Prop :=
  In (boxType b) boxTypes /\
  In (dim_length (dimensions b), dim_width (dimensions b),
      dim_height (dimensions b))
     (getRotations (boxType b)).

(** Of the boxes placed after a fragile box, the check lets at most two
    rest on it: a third is only ever accepted while fewer than two boxes of
    the whole list are counted. *)
Definition stackInv (packedBoxes : list PackedBox) : Prop :=
  forall pre f post,
    packedBoxes = pre ++ f :: post ->
    isFragile (boxType f) = true ->
    (countRestingOn packedBoxes f <= 2)%nat \/ countRestingOn post f = 0%nat.

(** The far faces of a placed box, as the program computes them when it
    splits the space the box went into. *)
Definition rightOf (b : PackedBox) : number :=
  pos_x (position b) + dim_length (dimensions b).

Definition topOf (b : PackedBox) : number :=
  pos_y (position b) + dim_height (dimensions b).

Definition frontOf (b : PackedBox) : number :=
  pos_z (position b) + dim_width (dimensions b).

(** Each coordinate of the corner [(x, y, z)] is [0] or the far face of one
    of the [placed] boxes along that axis. *)
Definition cornerOf (placed : list PackedBox) (x y z : number) : Prop :=
  (x = 0 \/ exists b, In b placed /\ x = rightOf b) /\
  (y = 0 \/ exists b, In b placed /\ y = topOf b) /\
  (z = 0 \/ exists b, In b placed /\ z = frontOf b).

Definition cornerInv (st : PackState) : Prop :=
  Forall (fun s => cornerOf (st_packedBoxes st) (sp_x s) (sp_y s) (sp_z s))
         (st_spaces st) /\
  forall pre b post,
    st_packedBoxes st = pre ++ b :: post ->
    cornerOf pre (pos_x (position b)) (pos_y (position b)) (pos_z (position b)).

(** ** Sample inputs *)

(** A row of three boxes along the length of the container. *)
Definition row_container : Container := mkContainer 3.5 2 2.
Definition row_boxTypes : list BoxType :=
  [ mkBoxType "long" "Long" 1.3 2 2 1 false "#4ECDC4" 1;
    mkBoxType "short" "Short" 1.1 2 2 1 false "#95E1D3" 2 ].

(** The same row next to two larger boxes. *)
Definition yard_container : Container := mkContainer 5 4 2.
Definition yard_boxTypes : list BoxType :=
  [ mkBoxType "wide" "Wide" 3.5 2 2 1 false "#FF6B6B" 1;
    mkBoxType "deep" "Deep" 1.5 4 2 1 false "#F38181" 1;
    mkBoxType "long" "Long" 1.3 2 2 1 false "#4ECDC4" 1;
    mkBoxType "short" "Short" 1.1 2 2 1 false "#95E1D3" 2 ].

(** A box that only fits a low container when laid on its side. *)
Definition low_container : Container := mkContainer 2 2 1.5.
Definition low_boxTypes : list BoxType :=
  [ mkBoxType "post" "Post" 1.1 1.1 1.9 1 false "#4ECDC4" 1 ].

(** Three thin sturdy sheets and one thinner fragile sheet, each covering the
    floor of the container. *)
Definition sheet_container : Container := mkContainer 10 10 100.
Definition sheet_boxTypes : list BoxType :=
  [ mkBoxType "sheet" "Sheet" 10 10 0.015625 1 false "#888888" 3;
    mkBoxType "glass" "Glass" 10 10 0.0078125 1 true "#FF6B6B" 1 ].

(** A fragile base that covers the floor of the container and four parcels,
    each a quarter of its footprint. *)
Definition stack_container : Container := mkContainer 20 20 100.
Definition stack_boxTypes : list BoxType :=
  [ mkBoxType "base" "Base" 20 20 5 8 true "#FF6B6B" 1;
    mkBoxType "parcel" "Parcel" 10 10 5 2 false "#4ECDC4" 4 ].

End Binary64.

(** * Properties *)

(** ** Numbers and lists *)

Lemma Qltb_lt a b : Qltb a b = true <-> a < b.
Proof.
  unfold Qltb. rewrite negb_true_iff.
  split; intro H.
  - apply Qnot_le_lt. intro Hle. apply Qle_bool_iff in Hle. congruence.
  - destruct (Qle_bool b a) eqn:E; [|reflexivity].
    apply Qle_bool_iff in E. apply Qle_not_lt in E. contradiction.
Qed.

Lemma Qltb_ge a b : Qltb a b = false <-> b <= a.
Proof.
  unfold Qltb. rewrite negb_false_iff. apply Qle_bool_iff.
Qed.

Section SortFacts.
Context {A : Type} (cmp : A -> A -> Q).

Lemma insert_perm a l : Permutation (a :: l) (insert cmp a l).
Proof.
  induction l as [|b l IH]; simpl; [reflexivity|].
  destruct (Qle_bool (cmp a b) 0); [reflexivity|].
  rewrite perm_swap. now apply perm_skip.
Qed.

Lemma sort_perm l : Permutation l (sort cmp l).
Proof.
  induction l as [|a l IH]; simpl; [constructor|].
  rewrite <- insert_perm. now apply perm_skip.
Qed.
End SortFacts.

(** Relations checked on all ordered pairs of a list. *)
Section Pairs.
Context {A : Type} (R : A -> A -> Prop).
Hypothesis R_sym : forall a b, R a b -> R b a.

Lemma FOP_perm l l' :
  Permutation l l' -> ForallOrdPairs R l -> ForallOrdPairs R l'.
Proof.
  induction 1 as [|x l l' Hp IH|x y l|l l' l'' H1 IH1 H2 IH2]; intro H.
  - constructor.
  - inversion_clear H as [|? ? Hx Hl]. constructor; [|auto].
    eapply Permutation_Forall; eauto.
  - inversion_clear H as [|? ? Hy Hl]. inversion_clear Hl as [|? ? Hx Hl'].
    inversion_clear Hy as [|? ? Hyx Hy'].
    constructor; [constructor; auto|constructor; auto].
  - auto.
Qed.

Lemma FOP_filter (f : A -> bool) l :
  ForallOrdPairs R l -> ForallOrdPairs R (filter f l).
Proof.
  induction 1 as [|a l Ha Hl IH]; simpl; [constructor|].
  destruct (f a); [|assumption].
  constructor; [|assumption].
  rewrite Forall_forall in *. intros x Hx.
  apply filter_In in Hx. apply Ha, Hx.
Qed.

Lemma FOP_app l1 l2 :
  ForallOrdPairs R l1 -> ForallOrdPairs R l2 ->
  (forall a b, In a l1 -> In b l2 -> R a b) ->
  ForallOrdPairs R (l1 ++ l2).
Proof.
  induction 1 as [|a l Ha Hl IH]; simpl; intros H2 H12; [assumption|].
  constructor.
  - apply Forall_app. split; [assumption|].
    rewrite Forall_forall. intros b Hb. apply H12; [now left|assumption].
  - apply IH; [assumption|]. intros x y Hx Hy. apply H12; [now right|assumption].
Qed.

Lemma FOP_middle l1 a l2 :
  ForallOrdPairs R (l1 ++ a :: l2) ->
  ForallOrdPairs R (l1 ++ l2) /\ forall b, In b (l1 ++ l2) -> R a b.
Proof.
  intro H.
  apply (FOP_perm (l1 ++ a :: l2) (a :: l1 ++ l2)) in H.
  - inversion_clear H as [|? ? Ha Hl]. split; [assumption|].
    now rewrite Forall_forall in Ha.
  - symmetry. apply Permutation_middle.
Qed.

(** Replacing one element by parts that inherit its relations. *)
Lemma FOP_replace l1 a l2 parts :
  ForallOrdPairs R (l1 ++ a :: l2) ->
  ForallOrdPairs R parts ->
  (forall r t, In r parts -> R a t -> R r t) ->
  ForallOrdPairs R (l1 ++ parts ++ l2).
Proof.
  intros H Hparts Hinh.
  apply FOP_middle in H. destruct H as [Hrest Ha].
  apply (FOP_perm (parts ++ l1 ++ l2)).
  - rewrite !app_assoc. apply Permutation_app_tail. apply Permutation_app_comm.
  - apply FOP_app; auto.
Qed.
End Pairs.

(** ** The loop body refines the step relation *)

Lemma tryRotations_Some packed bt space rots rot :
  tryRotations packed bt space rots = Some rot ->
  In rot rots /\
  (let '(rotL, rotW, rotH) := rot in
   boxFitsInSpace rotL rotW rotH space = true /\
   checkFragilityConstraint packed bt
     (mkPosition (sp_x space) (sp_y space) (sp_z space))
     (mkDimensions rotL rotW rotH) = true).
Proof.
  induction rots as [|[[l w] h] rots IH]; simpl; [discriminate|].
  destruct (boxFitsInSpace l w h space) eqn:Hfit; simpl.
  - destruct (checkFragilityConstraint _ _ _ _) eqn:Hfrag; simpl.
    + intro E. injection E as <-. split; [now left|]. now split.
    + intro E. destruct (IH E) as [Hin Hrest]. split; [now right|assumption].
  - intro E. destruct (IH E) as [Hin Hrest]. split; [now right|assumption].
Qed.

Lemma splice_middle l1 space l2 newSpaces :
  splice (l1 ++ space :: l2) (List.length l1) newSpaces = l1 ++ newSpaces ++ l2.
Proof.
  unfold splice. f_equal.
  - induction l1 as [|a l1 IH]; simpl; [reflexivity|now f_equal].
  - f_equal. induction l1 as [|a l1 IH]; simpl; [reflexivity|exact IH].
Qed.

Lemma trySpacesWith_Some sortSpaces packed bt index spaces rest : forall pre res,
  spaces = pre ++ rest ->
  trySpacesWith sortSpaces packed bt index spaces (List.length pre) rest
  = Some res ->
  exists l1 space l2 rot,
    spaces = l1 ++ space :: l2 /\
    tryRotations packed bt space (getRotations bt) = Some rot /\
    res = placeAtWith sortSpaces bt index spaces (List.length l1) space rot.
Proof.
  induction rest as [|space rest IH]; intros pre res Hsp; simpl; [discriminate|].
  destruct (tryRotations packed bt space (getRotations bt)) as [rot|] eqn:Hrot.
  - intro E. injection E as <-. exists pre, space, rest, rot. auto.
  - intro E. apply (IH (pre ++ [space])).
    + now rewrite <- app_assoc.
    + rewrite length_app. simpl. now rewrite Nat.add_1_r.
Qed.

Lemma placeBox_step st u : step u st (placeBox st u).
Proof.
  unfold placeBox, placeBoxWith.
  destruct (trySpacesWith _ _ _ _ _ _ _) as [[pb spaces']|] eqn:Htry.
  - apply (trySpacesWith_Some _ _ _ _ _ _ []) in Htry; [|reflexivity].
    destruct Htry as (l1 & space & l2 & [[rl rw] rh] & Hsp & Hrot & Hres).
    apply tryRotations_Some in Hrot. destruct Hrot as (Hin & Hfit & Hfrag).
    unfold placeAtWith in Hres. rewrite Hsp, splice_middle in Hres.
    injection Hres as -> ->.
    now apply (step_placed u st l1 l2 space rl rw rh).
  - apply step_unpacked.
Qed.

(** An invariant of the step relation holds after the whole loop. *)
Lemma runLoop_invariant (P : PackState -> Prop) (G : BoxToPlace -> Prop) :
  (forall u st st', G u -> P st -> step u st st' -> P st') ->
  forall units st, Forall G units -> P st -> P (runLoop st units).
Proof.
  intros Hstep units. unfold runLoop, runLoopWith.
  induction units as [|u units IH]; intros st HG HP; simpl.
  - assumption.
  - inversion_clear HG as [|? ? Hu Hrest].
    apply IH; [assumption|].
    eapply Hstep; eauto. apply placeBox_step.
Qed.

(** Every unit of the sorted demand list comes from a requested box type. *)
Lemma unit_boxType_In boxTypes u :
  In u (unitsOf boxTypes) ->
  In (btp_boxType u) boxTypes.
Proof.
  unfold unitsOf.
  intro H. apply (Permutation_in _ (Permutation_sym (sort_perm _ _))) in H.
  unfold expandBoxTypes in H. apply in_flat_map in H.
  destruct H as (bt & Hbt & Hu). unfold expandBoxType in Hu.
  apply in_map_iff in Hu. destruct Hu as (i & <- & _). assumption.
Qed.

Lemma units_valid boxTypes :
  Forall validBoxType boxTypes ->
  Forall (fun u => validBoxType (btp_boxType u)) (unitsOf boxTypes).
Proof.
  intro H. rewrite Forall_forall in *. intros u Hu.
  apply H. now apply unit_boxType_In.
Qed.

(** ** Regions *)

Ltac regions :=
  unfold spDisjoint, spFootDisjoint, bxDisjoint, insideContainer,
    disjoint, footDisjoint, footOverlap, within, positiveExtents,
    spaceRegion, boxRegion, containerRegion, placedRegion,
    residualRight, residualFront, residualAbove in *;
  simpl in *.

Lemma disjoint_sym a b : disjoint a b -> disjoint b a.
Proof. regions. lra. Qed.

Lemma footDisjoint_sym a b : footDisjoint a b -> footDisjoint b a.
Proof. regions. lra. Qed.

Lemma footDisjoint_disjoint a b : footDisjoint a b -> disjoint a b.
Proof. regions. lra. Qed.

Lemma within_disjoint a s t : within a s -> disjoint s t -> disjoint a t.
Proof. regions. lra. Qed.

Lemma within_footDisjoint a s t :
  within a s -> footDisjoint s t -> footDisjoint a t.
Proof. regions. lra. Qed.

Lemma within_trans a b c : within a b -> within b c -> within a c.
Proof. regions. lra. Qed.

Lemma within_footOverlap a s t : within a s -> footOverlap a t -> footOverlap s t.
Proof. regions. lra. Qed.

Lemma footOverlap_not_disjoint a b : footOverlap a b -> footDisjoint a b -> False.
Proof. regions. lra. Qed.

Lemma disjoint_sym_sp s t : spDisjoint s t -> spDisjoint t s.
Proof. apply disjoint_sym. Qed.

Lemma footDisjoint_sym_sp s t : spFootDisjoint s t -> spFootDisjoint t s.
Proof. apply footDisjoint_sym. Qed.

(** Separated regions share no point. *)
Lemma disjoint_no_overlap a b : disjoint a b -> ~ overlapInVolume a b.
Proof.
  intros H [[[px py] pz] [Ha Hb]]. unfold inRegion in *. regions. lra.
Qed.

(** Regions with positive extents that share no point are separated. *)
Lemma no_overlap_disjoint a b :
  positiveExtents a -> positiveExtents b ->
  ~ overlapInVolume a b -> disjoint a b.
Proof.
  intros Ha Hb H.
  destruct (Qlt_le_dec (r_x a) (r_x b + r_dx b)) as [X1|X1]; [|regions; lra].
  destruct (Qlt_le_dec (r_x b) (r_x a + r_dx a)) as [X2|X2]; [|regions; lra].
  destruct (Qlt_le_dec (r_y a) (r_y b + r_dy b)) as [Y1|Y1]; [|regions; lra].
  destruct (Qlt_le_dec (r_y b) (r_y a + r_dy a)) as [Y2|Y2]; [|regions; lra].
  destruct (Qlt_le_dec (r_z a) (r_z b + r_dz b)) as [Z1|Z1]; [|regions; lra].
  destruct (Qlt_le_dec (r_z b) (r_z a + r_dz a)) as [Z2|Z2]; [|regions; lra].
  exfalso. apply H.
  exists (if Qlt_le_dec (r_x a) (r_x b) then r_x b else r_x a,
          if Qlt_le_dec (r_y a) (r_y b) then r_y b else r_y a,
          if Qlt_le_dec (r_z a) (r_z b) then r_z b else r_z a).
  unfold inRegion. regions.
  destruct (Qlt_le_dec (r_x a) (r_x b)), (Qlt_le_dec (r_y a) (r_y b)),
    (Qlt_le_dec (r_z a) (r_z b)); lra.
Qed.

(** ** Guillotine split *)

Lemma splitSpace_eq s bl bw bh :
  splitSpace s bl bw bh =
    (if Qltb 0 (sp_length s - bl) then [residualRight s bl] else [])
    ++ (if Qltb 0 (sp_width s - bw) then [residualFront s bl bw] else [])
    ++ (if Qltb 0 (sp_height s - bh) then [residualAbove s bl bw bh] else []).
Proof.
  unfold splitSpace, residualRight, residualFront, residualAbove.
  destruct (Qltb 0 (sp_length s - bl)), (Qltb 0 (sp_width s - bw)),
    (Qltb 0 (sp_height s - bh)); reflexivity.
Qed.

Lemma splitSpace_In s bl bw bh r :
  In r (splitSpace s bl bw bh) <->
  (r = residualRight s bl /\ 0 < sp_length s - bl) \/
  (r = residualFront s bl bw /\ 0 < sp_width s - bw) \/
  (r = residualAbove s bl bw bh /\ 0 < sp_height s - bh).
Proof.
  rewrite splitSpace_eq, !in_app_iff.
  destruct (Qltb 0 (sp_length s - bl)) eqn:E1,
           (Qltb 0 (sp_width s - bw)) eqn:E2,
           (Qltb 0 (sp_height s - bh)) eqn:E3;
    rewrite ?Qltb_lt, ?Qltb_ge in *; simpl;
    intuition (subst; auto; try lra).
Qed.

Lemma boxFitsInSpace_true bl bw bh s :
  boxFitsInSpace bl bw bh s = true <->
  bl <= sp_length s /\ bw <= sp_width s /\ bh <= sp_height s.
Proof.
  unfold boxFitsInSpace. rewrite !andb_true_iff, !Qle_bool_iff. tauto.
Qed.

Lemma rotations_positive bt bl bw bh :
  validBoxType bt -> In (bl, bw, bh) (getRotations bt) ->
  0 < bl /\ 0 < bw /\ 0 < bh.
Proof.
  intros (Hl & Hw & Hh & _) Hin. unfold getRotations in Hin.
  destruct (isFragile bt); simpl in Hin;
    repeat (destruct Hin as [Hin|Hin]; [injection Hin as <- <- <-; auto|]);
    contradiction.
Qed.

Section Split.
Variables (s : Space) (bl bw bh : Q).
Hypothesis s_pos : positiveExtents (spaceRegion s).
Hypothesis box_pos : 0 < bl /\ 0 < bw /\ 0 < bh.
Hypothesis fits : boxFitsInSpace bl bw bh s = true.

Lemma placed_within : within (placedRegion s bl bw bh) (spaceRegion s).
Proof using All.
  pose proof (proj1 (boxFitsInSpace_true _ _ _ _) fits). regions. lra.
Qed.

Lemma residual_within r :
  In r (splitSpace s bl bw bh) -> within (spaceRegion r) (spaceRegion s).
Proof using All.
  pose proof (proj1 (boxFitsInSpace_true _ _ _ _) fits). rewrite splitSpace_In.
  intros [[-> H1]|[[-> H1]|[-> H1]]]; regions; lra.
Qed.

Lemma residual_positive r :
  In r (splitSpace s bl bw bh) -> positiveExtents (spaceRegion r).
Proof using All.
  pose proof (proj1 (boxFitsInSpace_true _ _ _ _) fits). rewrite splitSpace_In.
  intros [[-> H1]|[[-> H1]|[-> H1]]]; regions; lra.
Qed.

Lemma residual_disjoint_placed r :
  In r (splitSpace s bl bw bh) ->
  disjoint (spaceRegion r) (placedRegion s bl bw bh).
Proof using All.
  rewrite splitSpace_In.
  intros [[-> H1]|[[-> H1]|[-> H1]]]; regions; lra.
Qed.

Lemma residual_above_placed r :
  In r (splitSpace s bl bw bh) ->
  footOverlap (spaceRegion r) (placedRegion s bl bw bh) ->
  sp_y s + bh <= sp_y r.
Proof using All.
  rewrite splitSpace_In.
  intros [[-> H1]|[[-> H1]|[-> H1]]]; regions; lra.
Qed.

Lemma residuals_foot_disjoint :
  ForallOrdPairs spFootDisjoint (splitSpace s bl bw bh).
Proof using All.
  rewrite splitSpace_eq.
  destruct (Qltb 0 (sp_length s - bl)), (Qltb 0 (sp_width s - bw)),
    (Qltb 0 (sp_height s - bh)); simpl;
    repeat (constructor; try (regions; lra)).
Qed.

Lemma residuals_disjoint : ForallOrdPairs spDisjoint (splitSpace s bl bw bh).
Proof using All.
  pose proof residuals_foot_disjoint as H.
  induction H as [|a l Ha Hl IH]; constructor; [|assumption].
  rewrite Forall_forall in *. intros x Hx.
  apply footDisjoint_disjoint. now apply Ha.
Qed.

(** The placed box and the residual spaces tile the consumed space. *)
Lemma split_tiles p :
  inRegion p (spaceRegion s) <->
  inRegion p (placedRegion s bl bw bh) \/
  exists r, In r (splitSpace s bl bw bh) /\ inRegion p (spaceRegion r).
Proof using All.
  pose proof (proj1 (boxFitsInSpace_true _ _ _ _) fits) as Hf. destruct p as [[px py] pz]. split.
  - intro Hp.
    destruct (Qlt_le_dec px (sp_x s + bl)) as [Hx|Hx].
    + destruct (Qlt_le_dec pz (sp_z s + bw)) as [Hz|Hz].
      * destruct (Qlt_le_dec py (sp_y s + bh)) as [Hy|Hy].
        -- left. unfold inRegion in *. regions. lra.
        -- right. exists (residualAbove s bl bw bh). split.
           ++ apply splitSpace_In. right. right. split; [reflexivity|].
              unfold inRegion in *. regions. lra.
           ++ unfold inRegion in *. regions. lra.
      * right. exists (residualFront s bl bw). split.
        -- apply splitSpace_In. right. left. split; [reflexivity|].
           unfold inRegion in *. regions. lra.
        -- unfold inRegion in *. regions. lra.
    + right. exists (residualRight s bl). split.
      * apply splitSpace_In. left. split; [reflexivity|].
        unfold inRegion in *. regions. lra.
      * unfold inRegion in *. regions. lra.
  - intros [Hp|(r & Hr & Hp)].
    + unfold inRegion in *. regions. lra.
    + apply splitSpace_In in Hr.
      destruct Hr as [[-> H1]|[[-> H1]|[-> H1]]];
        unfold inRegion in *; regions; lra.
Qed.
End Split.

(** ** The geometric invariant is preserved by every iteration *)

Lemma spaces_after_In l1 l2 parts s :
  In s (filter bigEnough (sort compareSpaces (l1 ++ parts ++ l2))) ->
  In s parts \/ In s (l1 ++ l2).
Proof.
  intro H. apply filter_In in H. destruct H as [H _].
  apply (Permutation_in _ (Permutation_sym (sort_perm _ _))) in H.
  rewrite !in_app_iff in *. tauto.
Qed.

Lemma In_middle_rest {A} (l1 l2 : list A) a x :
  In x (l1 ++ l2) -> In x (l1 ++ a :: l2).
Proof. rewrite !in_app_iff. simpl. tauto. Qed.

Lemma FOP_snoc {A} (R : A -> A -> Prop) l x :
  ForallOrdPairs R l -> (forall a, In a l -> R a x) ->
  ForallOrdPairs R (l ++ [x]).
Proof.
  induction 1 as [|a l Ha Hl IH]; intro Hx; simpl.
  - repeat constructor.
  - constructor.
    + apply Forall_app. split; [assumption|].
      constructor; [|constructor]. apply Hx. now left.
    + apply IH. intros b Hb. apply Hx. now right.
Qed.

Lemma boxRegion_placedBoxAt bt index s bl bw bh :
  boxRegion (placedBoxAt bt index s (bl, bw, bh)) = placedRegion s bl bw bh.
Proof. reflexivity. Qed.

Lemma initial_geomInv c : validContainer c -> geomInv c (initialState c).
Proof.
  intros (Hl & Hw & Hh).
  constructor; simpl; try (now constructor);
    try (intros s b _ []);
    repeat constructor; regions; lra.
Qed.

Lemma geomInv_step c u st st' :
  validBoxType (btp_boxType u) -> geomInv c st -> step u st st' ->
  geomInv c st'.
Proof.
  intros Hvalid [Hwithin Hpos Hdisj Hfoot Hsb Habove Hbb Hbin Hori] Hstep.
  destruct Hstep as [l1 l2 s bl bw bh Hsp Hrot Hfit _|];
    [|constructor; assumption].
  rewrite Hsp in *.
  pose proof (rotations_positive _ _ _ _ Hvalid Hrot) as Hbox.
  assert (Hs_in : In s (l1 ++ s :: l2)) by (apply in_elt).
  rewrite Forall_forall in Hwithin, Hpos.
  pose proof (Hwithin s Hs_in) as Hs_within.
  pose proof (Hpos s Hs_in) as Hs_pos.
  pose proof (placed_within s bl bw bh Hs_pos Hbox Hfit) as Hplaced.
  pose proof (residual_within s bl bw bh Hs_pos Hbox Hfit) as Hres_within.
  destruct (FOP_middle _ disjoint_sym_sp l1 s l2 Hdisj) as [_ Hs_disj].
  destruct (FOP_middle _ footDisjoint_sym_sp l1 s l2 Hfoot) as [_ Hs_foot].
  constructor; cbn [st_spaces st_packedBoxes].
  - (* spaces stay inside the container *)
    rewrite Forall_forall. intros r Hr.
    apply spaces_after_In in Hr. destruct Hr as [Hr|Hr].
    + eapply within_trans; [now apply Hres_within|assumption].
    + apply Hwithin. now apply In_middle_rest.
  - rewrite Forall_forall. intros r Hr.
    apply spaces_after_In in Hr. destruct Hr as [Hr|Hr].
    + now apply (residual_positive s bl bw bh Hs_pos Hbox Hfit).
    + apply Hpos. now apply In_middle_rest.
  - apply FOP_filter.
    apply (FOP_perm _ disjoint_sym_sp _ _ (sort_perm _ _)).
    apply (FOP_replace _ disjoint_sym_sp l1 s l2); [assumption| |].
    + now apply residuals_disjoint.
    + intros r t Hr Hst. eapply within_disjoint; [|exact Hst].
      now apply Hres_within.
  - apply FOP_filter.
    apply (FOP_perm _ footDisjoint_sym_sp _ _ (sort_perm _ _)).
    apply (FOP_replace _ footDisjoint_sym_sp l1 s l2); [assumption| |].
    + now apply residuals_foot_disjoint.
    + intros r t Hr Hst. eapply within_footDisjoint; [|exact Hst].
      now apply Hres_within.
  - (* spaces against boxes *)
    intros r b Hr Hb. apply spaces_after_In in Hr.
    apply in_app_iff in Hb. destruct Hb as [Hb|[<-|[]]].
    + destruct Hr as [Hr|Hr].
      * eapply within_disjoint; [now apply Hres_within|].
        now apply Hsb.
      * apply Hsb; [now apply In_middle_rest|assumption].
    + rewrite boxRegion_placedBoxAt. destruct Hr as [Hr|Hr].
      * now apply (residual_disjoint_placed s bl bw bh Hs_pos Hbox Hfit).
      * apply disjoint_sym. eapply within_disjoint; [exact Hplaced|].
        now apply Hs_disj.
  - (* no box sits above a free space *)
    intros r b Hr Hb Hov. apply spaces_after_In in Hr.
    apply in_app_iff in Hb. destruct Hb as [Hb|[<-|[]]].
    + destruct Hr as [Hr|Hr].
      * pose proof (Hres_within r Hr) as Hrs.
        pose proof (Habove s b Hs_in Hb (within_footOverlap _ _ _ Hrs Hov)).
        regions. lra.
      * apply Habove; [now apply In_middle_rest|assumption|assumption].
    + rewrite boxRegion_placedBoxAt in *. destruct Hr as [Hr|Hr].
      * pose proof (residual_above_placed s bl bw bh Hs_pos Hbox Hfit r Hr Hov). regions. lra.
      * exfalso. pose proof (Hs_foot r Hr) as Hd.
        apply footDisjoint_sym in Hd.
        apply (footOverlap_not_disjoint _ _ Hov).
        apply footDisjoint_sym.
        eapply within_footDisjoint; [exact Hplaced|].
        apply footDisjoint_sym. exact Hd.
  - (* boxes against boxes *)
    apply FOP_snoc; [assumption|]. intros b Hb.
    unfold bxDisjoint. rewrite boxRegion_placedBoxAt.
    apply disjoint_sym. eapply within_disjoint; [exact Hplaced|].
    now apply Hsb.
  - apply Forall_app. split; [assumption|]. constructor; [|constructor].
    regions. lra.
  - apply Forall_app. split; [assumption|]. constructor; [|constructor].
    split; assumption.
Qed.

Lemma boxes_packBoxes c boxTypes :
  boxes (packBoxes c boxTypes)
  = st_packedBoxes (runLoop (initialState c) (unitsOf boxTypes)).
Proof. reflexivity. Qed.

Lemma geomInv_runLoop c units st :
  Forall (fun u => validBoxType (btp_boxType u)) units ->
  geomInv c st -> geomInv c (runLoop st units).
Proof.
  apply (runLoop_invariant (geomInv c)
           (fun u => validBoxType (btp_boxType u))).
  intros u s s' Hu Hs Hstep. eapply geomInv_step; eauto.
Qed.

Lemma geomInv_final c boxTypes :
  validInput c boxTypes ->
  geomInv c (runLoop (initialState c) (unitsOf boxTypes)).
Proof.
  intros [Hc Hb]. apply geomInv_runLoop.
  - now apply units_valid.
  - now apply initial_geomInv.
Qed.

Lemma FOP_nth_error {A} (R : A -> A -> Prop) l :
  (forall a b, R a b -> R b a) -> ForallOrdPairs R l ->
  forall i j a b, i <> j -> nth_error l i = Some a -> nth_error l j = Some b ->
                  R a b.
Proof.
  intros Hsym H. induction H as [|x l Hx Hl IH]; intros i j a b Hij Hi Hj.
  - destruct i; discriminate.
  - rewrite Forall_forall in Hx.
    destruct i as [|i], j as [|j]; simpl in *.
    + congruence.
    + injection Hi as <-. apply Hx. eapply nth_error_In; eauto.
    + injection Hj as <-. apply Hsym, Hx. eapply nth_error_In; eauto.
    + eapply (IH i j); eauto.
Qed.

Lemma FOP_impl {A} (R R' : A -> A -> Prop) l :
  (forall a b, R a b -> R' a b) -> ForallOrdPairs R l -> ForallOrdPairs R' l.
Proof.
  intros HR. induction 1 as [|a l Ha Hl IH]; constructor; [|assumption].
  eapply Forall_impl; [|exact Ha]. apply HR.
Qed.

(** ** Exact arithmetic: placed boxes never overlap and stay inside the
    container

    The three lemmas of this and the next section hold for the engine over
    the exact operations of [Q].  They locate the defect shown in the last
    part of this file, where the same engine runs on binary64 numbers: the
    control flow keeps boxes apart and inside the container, the rounding of
    [splitSpace] does not. *)

(** In exact arithmetic, two distinct entries of the placed-box list occupy
    regions that are separated along an axis, hence share no point of
    volume. *)
Lemma packBoxes_no_overlap_exact c boxTypes :
  validInput c boxTypes ->
  forall i j a b,
    i <> j ->
    nth_error (boxes (packBoxes c boxTypes)) i = Some a ->
    nth_error (boxes (packBoxes c boxTypes)) j = Some b ->
    ~ overlapInVolume (boxRegion a) (boxRegion b).
Proof.
  intros Hvalid i j a b Hij Hi Hj.
  apply disjoint_no_overlap.
  rewrite boxes_packBoxes in *.
  pose proof (inv_boxes_disjoint _ _ (geomInv_final c boxTypes Hvalid)) as H.
  refine (FOP_nth_error bxDisjoint _ _ H i j a b Hij Hi Hj).
  intros x y. apply disjoint_sym.
Qed.

(** In exact arithmetic, every placed box has a corner with non-negative
    coordinates and its occupied region lies within
    [0, length] x [0, height] x [0, width] of the container. *)
Lemma packBoxes_inside_container_exact c boxTypes :
  validInput c boxTypes ->
  forall b, In b (boxes (packBoxes c boxTypes)) ->
    insideContainer c b /\
    forall px py pz, inRegion (px, py, pz) (boxRegion b) ->
      0 <= px <= ct_length c /\ 0 <= py <= ct_height c /\ 0 <= pz <= ct_width c.
Proof.
  intros Hvalid b Hb. rewrite boxes_packBoxes in Hb.
  pose proof (inv_boxes_within _ _ (geomInv_final c boxTypes Hvalid)) as H.
  rewrite Forall_forall in H. specialize (H b Hb). split; [assumption|].
  intros px py pz Hp. unfold inRegion in Hp. regions. lra.
Qed.

Ltac valid_input :=
  unfold validInput, validContainer, validBoxType; simpl;
  repeat first [ split | constructor | reflexivity | discriminate ].

Lemma sample_valid : validInput sample_container sample_boxTypes.
Proof. valid_input. Defined.

(** ** Exact arithmetic: the free-space list *)

Lemma geomInv_freeSpaceInvariant c st : geomInv c st -> freeSpaceInvariant c st.
Proof.
  intros H. split; [exact (inv_spaces_within _ _ H)|]. split.
  - eapply FOP_impl; [|exact (inv_spaces_disjoint _ _ H)].
    intros a b. apply disjoint_no_overlap.
  - intros s b Hs Hb. apply disjoint_no_overlap.
    now apply (inv_space_box _ _ H).
Qed.

Lemma unitsOf_firstn_valid boxTypes n :
  Forall validBoxType boxTypes ->
  Forall (fun u => validBoxType (btp_boxType u)) (firstn n (unitsOf boxTypes)).
Proof.
  intro H. apply units_valid in H. rewrite Forall_forall in *.
  intros u Hu. apply H.
  rewrite <- (firstn_skipn n (unitsOf boxTypes)). apply in_or_app. now left.
Qed.

Lemma geomInv_stateAfter c boxTypes n :
  validInput c boxTypes -> geomInv c (stateAfter c boxTypes n).
Proof.
  intros [Hc Hb]. apply geomInv_runLoop.
  - now apply unitsOf_firstn_valid.
  - now apply initial_geomInv.
Qed.

(** In exact arithmetic the free-space list is, after any number of
    iterations of the main loop, a family of sub-volumes of the container
    that pairwise share no point and share no point with any placed box.
    The step that maintains it: when a box with positive extents fits a
    space with positive extents, the residual spaces of the split pairwise
    share no point, share no point with the region of the box, and together
    with that region cover exactly the points of the consumed space. *)
Lemma free_space_invariant_exact c boxTypes :
  validInput c boxTypes ->
  (forall n, freeSpaceInvariant c (stateAfter c boxTypes n)) /\
  (forall s bl bw bh,
     positiveExtents (spaceRegion s) ->
     0 < bl /\ 0 < bw /\ 0 < bh ->
     boxFitsInSpace bl bw bh s = true ->
     ForallOrdPairs
       (fun r t => ~ overlapInVolume (spaceRegion r) (spaceRegion t))
       (splitSpace s bl bw bh) /\
     (forall r, In r (splitSpace s bl bw bh) ->
        ~ overlapInVolume (spaceRegion r) (placedRegion s bl bw bh)) /\
     (forall p,
        inRegion p (spaceRegion s) <->
        inRegion p (placedRegion s bl bw bh) \/
        exists r, In r (splitSpace s bl bw bh) /\ inRegion p (spaceRegion r))).
Proof.
  intro Hvalid. split.
  - intro n. apply geomInv_freeSpaceInvariant. now apply geomInv_stateAfter.
  - intros s bl bw bh Hs Hbox Hfit. split; [|split].
    + eapply FOP_impl; [|exact (residuals_disjoint s bl bw bh Hs Hbox Hfit)].
      intros a b. apply disjoint_no_overlap.
    + intros r Hr. apply disjoint_no_overlap.
      now apply (residual_disjoint_placed s bl bw bh Hs Hbox Hfit).
    + apply split_tiles; assumption.
Qed.

(** ** Orientation of placed boxes *)

Lemma fromSpecs_final c boxTypes :
  Forall (fromSpecs boxTypes)
         (st_packedBoxes (runLoop (initialState c) (unitsOf boxTypes))).
Proof.
  apply (runLoop_invariant
           (fun st => Forall (fromSpecs boxTypes) (st_packedBoxes st))
           (fun u => In (btp_boxType u) boxTypes)).
  - intros u st st' Hu Hst Hstep.
    destruct Hstep as [l1 l2 s bl bw bh Hsp Hrot Hfit _|]; [|assumption].
    cbn [st_packedBoxes]. apply Forall_app. split; [assumption|].
    constructor; [|constructor]. split; assumption.
  - rewrite Forall_forall. apply unit_boxType_In.
  - constructor.
Qed.

Ltac perm3 :=
  first
    [ reflexivity
    | apply perm_swap
    | apply perm_skip, perm_swap
    | etransitivity; [apply perm_swap|apply perm_skip, perm_swap]
    | etransitivity; [apply perm_skip, perm_swap|apply perm_swap]
    | etransitivity; [apply perm_swap|];
      etransitivity; [apply perm_skip, perm_swap|apply perm_swap] ].

(** ** The fragility test *)




(** ** Orientation candidates *)

(** C5: the orientation candidates of a box type with dimensions
    [(l, w, h)] are, in this order, the six assignments of the three extents
    to (length, width, height) when the box type is not fragile, and the two
    assignments that keep [h] as the height when it is fragile. *)
Theorem getRotations_enumeration id name l w h weight color qty :
  getRotations (mkBoxType id name l w h weight false color qty)
  = [(l, w, h); (l, h, w); (w, l, h); (w, h, l); (h, l, w); (h, w, l)] /\
  getRotations (mkBoxType id name l w h weight true color qty)
  = [(l, w, h); (w, l, h)].
Proof.
  split; reflexivity.
Qed.

(** ** Guillotine split *)


(** ** Scenario A *)

(** C7: a container of 100 x 100 x 100 and one non-fragile box type of
    50 x 50 x 50 with quantity 1 give one packed box, no unpacked box and a
    utilization of 12.5 percent. *)
Theorem scenarioA id name weight color :
  let r := packBoxes (mkContainer 100 100 100)
             [mkBoxType id name 50 50 50 weight false color 1] in
  List.length (boxes r) = 1%nat /\
  packedBoxesCount (stats r) = 1%Z /\
  unpacked r = [] /\
  unpackedBoxes (stats r) = 0%Z /\
  utilizationPercent (stats r) == 125 # 10.
Proof.
  cbv zeta. repeat split; reflexivity.
Qed.

(** ** Accounting of requested units *)

Lemma length_expandBoxTypes boxTypes :
  Forall validBoxType boxTypes ->
  Z.of_nat (List.length (expandBoxTypes boxTypes)) = sumQuantities boxTypes.
Proof.
  unfold expandBoxTypes.
  induction 1 as [|bt bts (_ & _ & _ & Hq) Hbts IH]; simpl; [reflexivity|].
  rewrite length_app, Nat2Z.inj_add, IH.
  unfold expandBoxType. rewrite length_map, length_seq. lia.
Qed.

Lemma length_unitsOf boxTypes :
  List.length (unitsOf boxTypes) = List.length (expandBoxTypes boxTypes).
Proof.
  unfold unitsOf. symmetry. apply Permutation_length, sort_perm.
Qed.

Lemma sumCounts_increment m k :
  sumCounts (map_set m k (getCount m k + 1)) = (sumCounts m + 1)%Z.
Proof.
  unfold getCount. induction m as [|[k' v] m IH]; simpl; [reflexivity|].
  destruct (String.eqb k' k); simpl.
  - destruct (Z.eqb_spec v 0); lia.
  - rewrite IH. lia.
Qed.

Lemma map_set_keys (P : string -> Prop) m k v :
  P k -> Forall (fun kv => P (fst kv)) m ->
  Forall (fun kv => P (fst kv)) (map_set m k v).
Proof.
  intros Hk. induction 1 as [|[k' v'] m Hkv Hm IH]; simpl.
  - constructor; [assumption|constructor].
  - destruct (String.eqb k' k); constructor; assumption.
Qed.

(** Every iteration accounts for its unit once, as placed or as unpacked. *)
Lemma runLoop_accounting units : forall st,
  (Z.of_nat (List.length (st_packedBoxes (runLoop st units)))
   + sumCounts (st_unpackedCounts (runLoop st units))
   = Z.of_nat (List.length (st_packedBoxes st))
     + sumCounts (st_unpackedCounts st)
     + Z.of_nat (List.length units))%Z.
Proof.
  induction units as [|u units IH]; intro st.
  - simpl. lia.
  - change (runLoop st (u :: units)) with (runLoop (placeBox st u) units).
    rewrite IH.
    destruct (placeBox_step st u) as [l1 l2 s bl bw bh Hsp Hrot Hfit Hfrag|];
      cbn [st_packedBoxes st_unpackedCounts].
    + rewrite length_app. simpl. lia.
    + rewrite sumCounts_increment. simpl List.length. lia.
Qed.

Lemma unpackedCounts_keys c boxTypes :
  Forall (fun kv => requestedId boxTypes (fst kv))
         (st_unpackedCounts (runLoop (initialState c) (unitsOf boxTypes))).
Proof.
  apply (runLoop_invariant
           (fun st => Forall (fun kv => requestedId boxTypes (fst kv))
                             (st_unpackedCounts st))
           (fun u => In (btp_boxType u) boxTypes)).
  - intros u st st' Hu Hst Hstep.
    destruct Hstep as [l1 l2 s bl bw bh Hsp Hrot Hfit _|]; [assumption|].
    cbn [st_unpackedCounts]. apply map_set_keys; [|assumption].
    now exists (btp_boxType u).
  - rewrite Forall_forall. apply unit_boxType_In.
  - constructor.
Qed.

Lemma findBoxType_requested boxTypes id :
  requestedId boxTypes id -> exists bt, findBoxType boxTypes id = Some bt.
Proof.
  intros (bt & Hin & <-). unfold findBoxType.
  destruct (find _ boxTypes) as [bt'|] eqn:E; [now exists bt'|].
  pose proof (find_none _ _ E bt Hin) as H. simpl in H.
  now rewrite String.eqb_refl in H.
Qed.

Lemma sumQuantities_buildUnpacked boxTypes counts :
  Forall (fun kv => requestedId boxTypes (fst kv)) counts ->
  sumQuantities (buildUnpacked boxTypes counts) = sumCounts counts.
Proof.
  induction 1 as [|[id n] counts Hid Hrest IH]; simpl; [reflexivity|].
  simpl in Hid. destruct (findBoxType_requested _ _ Hid) as [bt ->].
  simpl. now rewrite IH.
Qed.

(** C2: for every valid input the statistics satisfy
    packed + unpacked = total, the total is the sum of the requested
    quantities, the packed count is the length of the placed-box list, and
    the quantities of the unpacked list sum to the unpacked count. *)
Theorem packBoxes_accounting c boxTypes :
  validInput c boxTypes ->
  let r := packBoxes c boxTypes in
  (packedBoxesCount (stats r) + unpackedBoxes (stats r) = totalBoxes (stats r))%Z /\
  totalBoxes (stats r) = sumQuantities boxTypes /\
  packedBoxesCount (stats r) = Z.of_nat (List.length (boxes r)) /\
  sumQuantities (unpacked r) = unpackedBoxes (stats r).
Proof.
  intros [_ Hb]. cbv zeta.
  unfold packBoxes, packBoxesWith.
  cbn [stats unpacked boxes totalBoxes packedBoxesCount unpackedBoxes].
  fold runLoop. fold (unitsOf boxTypes).
  split; [lia|]. split; [|split; [reflexivity|]].
  - rewrite length_unitsOf. now apply length_expandBoxTypes.
  - rewrite sumQuantities_buildUnpacked by apply unpackedCounts_keys.
    pose proof (runLoop_accounting (unitsOf boxTypes) (initialState c)) as H.
    simpl in H. lia.
Qed.

Lemma packBoxes_accounting_witness :
  validInput sample_container sample_boxTypes /\
  totalBoxes (stats (packBoxes sample_container sample_boxTypes)) = 5%Z /\
  sumQuantities (unpacked (packBoxes sample_container sample_boxTypes))
  = unpackedBoxes (stats (packBoxes sample_container sample_boxTypes)).
Proof.
  split; [exact sample_valid|].
  destruct (packBoxes_accounting sample_container sample_boxTypes sample_valid)
    as (_ & Htotal & _ & Hunpacked).
  split; [exact Htotal|exact Hunpacked].
Defined.

(** ** The outcome of [Array.prototype.sort]

    A list has exactly one stable sort under a consistent comparator, so
    the result of the engine does not depend on the procedure that sorts. *)

Section StableSortFacts.
Context {A : Type} (cmp : A -> A -> Q).
Hypothesis Hcmp : consistentComparator cmp.

Lemma tied_true x y : tied cmp x y = true <-> cmp x y <= 0 /\ cmp y x <= 0.
Proof. unfold tied. now rewrite andb_true_iff, !Qle_bool_iff. Qed.

Lemma tied_refl x : tied cmp x x = true.
Proof. apply tied_true. split; apply (cmp_refl cmp Hcmp). Qed.

Lemma insert_sorted a l :
  StronglySorted (fun a b => cmp a b <= 0) l ->
  StronglySorted (fun a b => cmp a b <= 0) (insert cmp a l).
Proof.
  induction 1 as [|b l Hl IH Hb]; simpl.
  - repeat constructor.
  - destruct (Qle_bool (cmp a b) 0) eqn:E.
    + apply Qle_bool_iff in E. constructor; [now constructor|].
      constructor; [assumption|].
      eapply Forall_impl; [|exact Hb]. intros c Hc.
      now apply (cmp_trans cmp Hcmp a b c).
    + constructor; [assumption|].
      assert (Hba : cmp b a <= 0).
      { apply (cmp_total cmp Hcmp). intro H. apply Qle_bool_iff in H. congruence. }
      eapply Permutation_Forall; [apply insert_perm|]. now constructor.
Qed.

Lemma insert_stable x a l :
  filter (tied cmp x) (insert cmp a l) = filter (tied cmp x) (a :: l).
Proof.
  induction l as [|b l IH]; [reflexivity|].
  cbn [insert]. destruct (Qle_bool (cmp a b) 0) eqn:E; [reflexivity|].
  cbn [filter] in *. rewrite IH.
  destruct (tied cmp x b) eqn:Hb; [|reflexivity].
  destruct (tied cmp x a) eqn:Ha; [|reflexivity].
  exfalso. apply tied_true in Ha, Hb.
  assert (cmp a b <= 0) by (apply (cmp_trans cmp Hcmp a x b); tauto).
  apply Qle_bool_iff in H. congruence.
Qed.

Lemma sort_stable l : stableSortOf cmp l (sort cmp l).
Proof.
  split.
  - induction l as [|a l IH]; simpl; [constructor|now apply insert_sorted].
  - intro x. induction l as [|a l IH]; [reflexivity|].
    cbn [sort fold_right]. fold (sort cmp l).
    rewrite insert_stable. cbn [filter]. now rewrite IH.
Qed.

Lemma sorted_head_le a l b :
  StronglySorted (fun a b => cmp a b <= 0) (a :: l) ->
  In b (a :: l) -> cmp a b <= 0.
Proof.
  intros H Hin. inversion_clear H as [|? ? _ Ha].
  destruct Hin as [<-|Hin]; [apply (cmp_refl cmp Hcmp)|].
  rewrite Forall_forall in Ha. now apply Ha.
Qed.

(** A list has at most one stable sort. *)
Lemma stable_sorted_unique : forall l1 l2,
  StronglySorted (fun a b => cmp a b <= 0) l1 ->
  StronglySorted (fun a b => cmp a b <= 0) l2 ->
  (forall x, filter (tied cmp x) l1 = filter (tied cmp x) l2) ->
  l1 = l2.
Proof.
  induction l1 as [|a l1 IH]; intros [|b l2] H1 H2 Hf.
  - reflexivity.
  - specialize (Hf b). cbn [filter] in Hf. rewrite tied_refl in Hf. discriminate.
  - specialize (Hf a). cbn [filter] in Hf. rewrite tied_refl in Hf. discriminate.
  - assert (Ha : In a (b :: l2)).
    { pose proof (Hf a) as E. cbn [filter] in E. rewrite tied_refl in E.
      assert (Hin : In a (filter (tied cmp a) (b :: l2)))
        by (cbn [filter]; rewrite <- E; now left).
      apply filter_In in Hin. tauto. }
    assert (Hb : In b (a :: l1)).
    { pose proof (Hf b) as E. cbn [filter] in E. rewrite tied_refl in E.
      assert (Hin : In b (filter (tied cmp b) (a :: l1)))
        by (cbn [filter]; rewrite E; now left).
      apply filter_In in Hin. tauto. }
    pose proof (sorted_head_le _ _ _ H1 Hb) as Hab.
    pose proof (sorted_head_le _ _ _ H2 Ha) as Hba.
    assert (Hab' : tied cmp a b = true) by (apply tied_true; tauto).
    pose proof (Hf a) as E. cbn [filter] in E.
    rewrite tied_refl, Hab' in E. injection E as -> E.
    f_equal. apply IH.
    + now inversion H1.
    + now inversion H2.
    + intro x. specialize (Hf x). cbn [filter] in Hf.
      destruct (tied cmp x b); [now injection Hf|assumption].
Qed.

(** Whatever procedure produces a stable sort, it produces [sort]. *)
Lemma stableSortOf_sort l l' : stableSortOf cmp l l' -> l' = sort cmp l.
Proof.
  intros [Hs Hf]. destruct (sort_stable l) as [Hs' Hf'].
  apply stable_sorted_unique; try assumption.
  intro x. now rewrite Hf, Hf'.
Qed.
End StableSortFacts.

Lemma compareVolume_consistent : consistentComparator compareVolume.
Proof.
  unfold compareVolume. constructor; intros; lra.
Qed.

Lemma compareSpaces_consistent : consistentComparator compareSpaces.
Proof.
  unfold compareSpaces. constructor.
  - intro a. rewrite !(proj2 (Qeq_bool_iff _ _) (Qeq_refl _)). simpl. lra.
  - intros a b.
    destruct (Qeq_bool (sp_y a) (sp_y b)) eqn:Y1,
             (Qeq_bool (sp_y b) (sp_y a)) eqn:Y2,
             (Qeq_bool (sp_x a) (sp_x b)) eqn:X1,
             (Qeq_bool (sp_x b) (sp_x a)) eqn:X2; simpl;
      repeat match goal with
             | H : Qeq_bool _ _ = true |- _ => apply Qeq_bool_iff in H
             | H : Qeq_bool _ _ = false |- _ => apply Qeq_bool_neq in H
             end; lra.
  - intros a b c.
    destruct (Qeq_bool (sp_y a) (sp_y b)) eqn:Y1,
             (Qeq_bool (sp_y b) (sp_y c)) eqn:Y2,
             (Qeq_bool (sp_y a) (sp_y c)) eqn:Y3,
             (Qeq_bool (sp_x a) (sp_x b)) eqn:X1,
             (Qeq_bool (sp_x b) (sp_x c)) eqn:X2,
             (Qeq_bool (sp_x a) (sp_x c)) eqn:X3; simpl;
      repeat match goal with
             | H : Qeq_bool _ _ = true |- _ => apply Qeq_bool_iff in H
             | H : Qeq_bool _ _ = false |- _ => apply Qeq_bool_neq in H
             end; lra.
Qed.

(** The two arrays the engine sorts have exactly one outcome each. *)
Lemma sorted_units_unique l l' :
  stableSortOf compareVolume l l' -> l' = sort compareVolume l.
Proof. apply stableSortOf_sort, compareVolume_consistent. Qed.

Lemma sorted_spaces_unique l l' :
  stableSortOf compareSpaces l l' -> l' = sort compareSpaces l.
Proof. apply stableSortOf_sort, compareSpaces_consistent. Qed.

Lemma stableSorter_sort {A} (cmp : A -> A -> Q) srt :
  consistentComparator cmp -> stableSorter cmp srt ->
  forall l, srt l = sort cmp l.
Proof.
  intros Hcmp Hsrt l. apply stableSortOf_sort; [assumption|apply Hsrt].
Qed.

Lemma sort_stableSorter {A} (cmp : A -> A -> Q) :
  consistentComparator cmp -> stableSorter cmp (sort cmp).
Proof.
  intros Hcmp l. now apply sort_stable.
Qed.

Section SortIndependence.
Variables sortSpaces sortSpaces' : list Space -> list Space.
Hypothesis spaces_agree : forall l, sortSpaces l = sortSpaces' l.

Lemma trySpacesWith_ext packed bt index spaces : forall rest spaceIdx,
  trySpacesWith sortSpaces packed bt index spaces spaceIdx rest
  = trySpacesWith sortSpaces' packed bt index spaces spaceIdx rest.
Proof.
  induction rest as [|space rest IH]; intro spaceIdx; [reflexivity|].
  cbn [trySpacesWith].
  destruct (tryRotations packed bt space (getRotations bt)) as [[[l w] h]|].
  - unfold placeAtWith. now rewrite spaces_agree.
  - apply IH.
Qed.

Lemma placeBoxWith_ext st u :
  placeBoxWith sortSpaces st u = placeBoxWith sortSpaces' st u.
Proof.
  unfold placeBoxWith. now rewrite trySpacesWith_ext.
Qed.

Lemma runLoopWith_ext units : forall st,
  runLoopWith sortSpaces st units = runLoopWith sortSpaces' st units.
Proof.
  unfold runLoopWith.
  induction units as [|u units IH]; intro st; [reflexivity|].
  cbn [fold_left]. now rewrite placeBoxWith_ext, IH.
Qed.

Lemma packBoxesWith_ext sortUnits sortUnits' c boxTypes :
  (forall l, sortUnits l = sortUnits' l) ->
  packBoxesWith sortUnits sortSpaces c boxTypes
  = packBoxesWith sortUnits' sortSpaces' c boxTypes.
Proof.
  intro units_agree. unfold packBoxesWith.
  now rewrite units_agree, runLoopWith_ext.
Qed.
End SortIndependence.

(** * Further properties of the engine *)

(** ** Success and failure *)

Lemma unitsOf_In boxTypes u :
  In u (unitsOf boxTypes) <->
  In (btp_boxType u) boxTypes /\
  (btp_index u < Z.to_nat (quantity (btp_boxType u)))%nat.
Proof.
  unfold unitsOf. split.
  - intro H. apply (Permutation_in _ (Permutation_sym (sort_perm _ _))) in H.
    unfold expandBoxTypes in H. apply in_flat_map in H.
    destruct H as (bt & Hbt & Hu). unfold expandBoxType in Hu.
    apply in_map_iff in Hu. destruct Hu as (i & <- & Hi).
    apply in_seq in Hi. simpl. split; [assumption|lia].
  - intros [Hbt Hi]. apply (Permutation_in _ (sort_perm _ _)).
    unfold expandBoxTypes. apply in_flat_map.
    exists (btp_boxType u). split; [assumption|].
    unfold expandBoxType. apply in_map_iff. exists (btp_index u).
    split; [now destruct u|]. apply in_seq. lia.
Qed.

Lemma tryRotations_nil bt s rots :
  tryRotations [] bt s rots
  = find (fun rot => let '(l, w, h) := rot in boxFitsInSpace l w h s) rots.
Proof.
  induction rots as [|[[l w] h] rots IH]; [reflexivity|].
  cbn [tryRotations find]. rewrite IH.
  now destruct (boxFitsInSpace l w h s).
Qed.

Lemma find_existsb {A} (f : A -> bool) l :
  existsb f l = match find f l with Some _ => true | None => false end.
Proof.
  induction l as [|a l IH]; [reflexivity|].
  cbn [existsb find]. now destruct (f a).
Qed.

(** From a pristine state, a unit that fits the container is placed and a
    unit that does not leaves the state pristine. *)
Lemma placeBox_pristine c st u :
  pristine c st ->
  if fitsInSomeRotation (btp_boxType u) (containerSpace c)
  then st_packedBoxes (placeBox st u) <> []
  else pristine c (placeBox st u).
Proof.
  intros [Hsp Hpk]. unfold placeBox, placeBoxWith, fitsInSomeRotation.
  rewrite Hsp, Hpk. cbn [trySpacesWith].
  rewrite tryRotations_nil, find_existsb.
  destruct (find _ (getRotations (btp_boxType u))) as [[[l w] h]|].
  - cbn [placeAtWith st_packedBoxes app]. discriminate.
  - cbn [trySpacesWith]. split; reflexivity.
Qed.

Lemma runLoop_keeps_boxes units : forall st,
  st_packedBoxes st <> [] -> st_packedBoxes (runLoop st units) <> [].
Proof.
  induction units as [|u units IH]; intros st H; [exact H|].
  change (runLoop st (u :: units)) with (runLoop (placeBox st u) units).
  apply IH.
  destruct (placeBox_step st u) as [l1 l2 s bl bw bh Hsp Hrot Hfit Hfrag|];
    cbn [st_packedBoxes]; [|exact H].
  intro E. apply app_eq_nil in E. destruct E as [_ E]. discriminate.
Qed.

Lemma runLoop_pristine c units : forall st,
  pristine c st ->
  if existsb (fun u => fitsInSomeRotation (btp_boxType u) (containerSpace c))
             units
  then st_packedBoxes (runLoop st units) <> []
  else pristine c (runLoop st units).
Proof.
  induction units as [|u units IH]; intros st Hst; [exact Hst|].
  change (runLoop st (u :: units)) with (runLoop (placeBox st u) units).
  cbn [existsb].
  pose proof (placeBox_pristine c st u Hst) as Hu.
  destruct (fitsInSomeRotation (btp_boxType u) (containerSpace c));
    cbn [orb].
  - now apply runLoop_keeps_boxes.
  - now apply IH.
Qed.

Lemma initial_pristine c : pristine c (initialState c).
Proof. split; reflexivity. Qed.

Lemma success_boxes c boxTypes :
  success (packBoxes c boxTypes) = true <-> boxes (packBoxes c boxTypes) <> [].
Proof.
  change (success (packBoxes c boxTypes))
    with (0 <? List.length (boxes (packBoxes c boxTypes)))%nat.
  destruct (boxes (packBoxes c boxTypes)); cbn; split;
    congruence || discriminate.
Qed.

(** X3: the engine reports success exactly when at least one requested unit
    fits the empty container in one of its orientations. *)
Theorem success_iff_some_unit_fits c boxTypes :
  success (packBoxes c boxTypes) = true <->
  exists bt, In bt boxTypes /\ (0 < quantity bt)%Z /\
             fitsInSomeRotation bt (containerSpace c) = true.
Proof.
  rewrite success_boxes, boxes_packBoxes.
  pose proof (runLoop_pristine c (unitsOf boxTypes) (initialState c)
                (initial_pristine c)) as H.
  destruct (existsb _ (unitsOf boxTypes)) eqn:E.
  - split; [intros _|intros _; exact H].
    apply existsb_exists in E. destruct E as (u & Hu & Hfit).
    apply unitsOf_In in Hu. destruct Hu as [Hbt Hi].
    exists (btp_boxType u). split; [assumption|]. split; [lia|assumption].
  - split.
    + intro Hne. destruct H as [_ Hnil]. contradiction.
    + intros (bt & Hbt & Hq & Hfit). exfalso.
      assert (Hex : existsb
                (fun u => fitsInSomeRotation (btp_boxType u) (containerSpace c))
                (unitsOf boxTypes) = true).
      { apply existsb_exists. exists (mkBoxToPlace bt 0). split; [|exact Hfit].
        apply unitsOf_In. simpl. split; [assumption|lia]. }
      congruence.
Qed.

Lemma scenarioB_reports_failure :
  success (packBoxes (mkContainer 10 10 10)
             [mkBoxType "big" "Big" 20 20 20 1 false "#000000" 1]) = false.
Proof. reflexivity. Qed.

(** X4: if no requested box type fits the empty container in any
    orientation, nothing is placed: the result reports failure, every
    requested unit is counted as unpacked, and the used volume is 0. *)
Theorem nothing_fits_all_unpacked c boxTypes :
  (forall bt, In bt boxTypes ->
              fitsInSomeRotation bt (containerSpace c) = false) ->
  let r := packBoxes c boxTypes in
  boxes r = [] /\ success r = false /\
  packedBoxesCount (stats r) = 0%Z /\
  unpackedBoxes (stats r) = totalBoxes (stats r) /\
  sumQuantities (unpacked r) = totalBoxes (stats r) /\
  usedVolume (stats r) = 0.
Proof.
  intros Hnone. cbv zeta.
  assert (Hboxes : st_packedBoxes (runLoop (initialState c) (unitsOf boxTypes))
                   = []).
  { pose proof (runLoop_pristine c (unitsOf boxTypes) (initialState c)
                  (initial_pristine c)) as H.
    destruct (existsb _ (unitsOf boxTypes)) eqn:E; [|apply H].
    apply existsb_exists in E. destruct E as (u & Hu & Hfit).
    apply unitsOf_In in Hu. rewrite (Hnone _ (proj1 Hu)) in Hfit.
    discriminate. }
  pose proof (runLoop_accounting (unitsOf boxTypes) (initialState c)) as Hacc.
  pose proof (sumQuantities_buildUnpacked boxTypes _
                (unpackedCounts_keys c boxTypes)) as Hunp.
  unfold packBoxes, packBoxesWith.
  cbn [boxes success stats unpacked packedBoxesCount unpackedBoxes totalBoxes
       usedVolume utilizationPercent].
  fold runLoop. fold (unitsOf boxTypes).
  rewrite Hboxes in *. cbn [List.length fold_left Nat.ltb Nat.leb].
  cbn [initialState st_packedBoxes st_unpackedCounts List.length sumCounts
       fold_right] in Hacc.
  repeat split; try reflexivity; try lia.
Qed.

Lemma nothing_fits_all_unpacked_witness :
  unpackedBoxes
    (stats (packBoxes (mkContainer 10 10 10)
              [mkBoxType "big" "Big" 20 20 20 1 false "#000000" 3]))
  = 3%Z.
Proof.
  refine (proj1 (proj2 (proj2 (proj2
            (nothing_fits_all_unpacked (mkContainer 10 10 10)
               [mkBoxType "big" "Big" 20 20 20 1 false "#000000" 3] _))))).
  intros bt [<-|[]]. reflexivity.
Defined.

(** X5: when every requested quantity is zero or negative (in particular
    when no box type is given) the loops never run: the result holds no
    placed box, no unpacked record, a total of 0 and reports failure. *)
Theorem nothing_requested c boxTypes :
  (forall bt, In bt boxTypes -> (quantity bt <= 0)%Z) ->
  let r := packBoxes c boxTypes in
  boxes r = [] /\ unpacked r = [] /\ success r = false /\
  totalBoxes (stats r) = 0%Z /\ unpackedBoxes (stats r) = 0%Z.
Proof.
  intros Hq. cbv zeta.
  assert (Hexp : expandBoxTypes boxTypes = []).
  { unfold expandBoxTypes. induction boxTypes as [|bt bts IH]; [reflexivity|].
    cbn [flat_map]. rewrite IH by (intros b Hb; apply Hq; now right).
    unfold expandBoxType.
    replace (Z.to_nat (quantity bt)) with 0%nat; [reflexivity|].
    specialize (Hq bt (or_introl eq_refl)). lia. }
  unfold packBoxes, packBoxesWith. rewrite Hexp. cbn. repeat split.
Qed.

Lemma nothing_requested_witness :
  boxes (packBoxes sample_container
           [mkBoxType "none" "None" 10 10 10 1 false "#000000" 0]) = [].
Proof.
  refine (proj1 (nothing_requested sample_container
                   [mkBoxType "none" "None" 10 10 10 1 false "#000000" 0] _)).
  intros bt [<-|[]]. simpl. lia.
Defined.

(** X6: for every valid input, every placed box has a box type that fits the
    empty container in one of its orientations: a box type that fits in no
    orientation is never placed. *)
Theorem placed_fits_container c boxTypes :
  validInput c boxTypes ->
  forall b, In b (boxes (packBoxes c boxTypes)) ->
    fitsInSomeRotation (boxType b) (containerSpace c) = true.
Proof.
  intros Hvalid b Hb. rewrite boxes_packBoxes in Hb.
  pose proof (geomInv_final c boxTypes Hvalid) as Hgeom.
  pose proof (inv_boxes_within _ _ Hgeom) as Hin.
  pose proof (inv_boxes_oriented _ _ Hgeom) as Hori.
  rewrite Forall_forall in Hin, Hori.
  specialize (Hin b Hb). destruct (Hori b Hb) as [_ Hrot].
  unfold fitsInSomeRotation. apply existsb_exists.
  eexists. split; [exact Hrot|]. cbv beta iota.
  apply boxFitsInSpace_true. unfold insideContainer in Hin.
  unfold containerSpace. cbn [sp_length sp_width sp_height]. lra.
Qed.

Lemma placed_fits_container_witness :
  validInput sample_container sample_boxTypes /\
  exists b,
    nth_error (boxes (packBoxes sample_container sample_boxTypes)) 1 = Some b /\
    fitsInSomeRotation (boxType b) (containerSpace sample_container) = true.
Proof.
  split; [exact sample_valid|].
  eexists. split; [reflexivity|].
  apply (placed_fits_container sample_container sample_boxTypes sample_valid).
  apply (nth_error_In _ 1). reflexivity.
Defined.

(** ** Accounting per box type *)

Lemma map_get_set m k v k' :
  map_get (map_set m k v) k'
  = if String.eqb k k' then Some v else map_get m k'.
Proof.
  induction m as [|[k0 v0] m IH]; cbn [map_set map_get]; [reflexivity|].
  destruct (String.eqb_spec k0 k) as [->|Hne]; cbn [map_get].
  - destruct (String.eqb k k'); reflexivity.
  - rewrite IH. destruct (String.eqb_spec k0 k') as [->|Hne'];
      [|reflexivity].
    destruct (String.eqb_spec k k'); [congruence|reflexivity].
Qed.

Lemma getCount_increment m k k' :
  getCount (map_set m k (getCount m k + 1)) k'
  = if String.eqb k k' then (getCount m k + 1)%Z else getCount m k'.
Proof.
  unfold getCount at 1. rewrite map_get_set.
  destruct (String.eqb k k'); [|reflexivity].
  destruct (Z.eqb_spec (getCount m k + 1) 0); lia.
Qed.

Lemma map_get_absent m k : ~ In k (map fst m) -> map_get m k = None.
Proof.
  induction m as [|[k0 v0] m IH]; intro H; cbn [map_get]; [reflexivity|].
  destruct (String.eqb_spec k0 k) as [->|Hne].
  - exfalso. apply H. now left.
  - apply IH. intro Hin. apply H. now right.
Qed.

Lemma map_set_keys_NoDup m k v :
  NoDup (map fst m) -> NoDup (map fst (map_set m k v)).
Proof.
  intro H. induction m as [|[k0 v0] m IH]; cbn [map_set].
  - repeat constructor. intros [].
  - inversion_clear H as [|? ? Hk0 Hm].
    destruct (String.eqb_spec k0 k) as [->|Hne]; cbn [map fst].
    + now constructor.
    + constructor; [|now apply IH].
      clear IH Hm. intro Hin. apply Hk0.
      induction m as [|[k1 v1] m IH]; cbn [map_set map fst] in *.
      * destruct Hin as [Hin|[]]. congruence.
      * destruct (String.eqb k1 k); cbn [map fst] in *;
          (destruct Hin as [Hin|Hin]; [now left|right]); auto.
        apply IH. intro H'. apply Hk0. now right. exact Hin.
Qed.

Lemma placedWithId_snoc id packed b :
  placedWithId id (packed ++ [b])
  = (placedWithId id packed + (if typeHasId id (boxType b) then 1 else 0))%Z.
Proof.
  unfold placedWithId. rewrite filter_app, length_app. cbn [filter].
  destruct (typeHasId id (boxType b)); cbn [List.length]; lia.
Qed.

(** Every iteration accounts for its unit under the identifier of its box
    type. *)
Lemma runLoop_accounting_by_id id units : forall st,
  (placedWithId id (st_packedBoxes (runLoop st units))
   + getCount (st_unpackedCounts (runLoop st units)) id
   = placedWithId id (st_packedBoxes st)
     + getCount (st_unpackedCounts st) id
     + unitsWithId id units)%Z.
Proof.
  induction units as [|u units IH]; intro st.
  - unfold unitsWithId. cbn. lia.
  - change (runLoop st (u :: units)) with (runLoop (placeBox st u) units).
    rewrite IH. unfold unitsWithId. cbn [filter].
    destruct (placeBox_step st u) as [l1 l2 s bl bw bh Hsp Hrot Hfit Hfrag|];
      cbn [st_packedBoxes st_unpackedCounts].
    + rewrite placedWithId_snoc.
      change (boxType (placedBoxAt (btp_boxType u) (btp_index u) s (bl, bw, bh)))
        with (btp_boxType u).
      destruct (typeHasId id (btp_boxType u)); cbn [List.length]; lia.
    + rewrite getCount_increment. unfold typeHasId.
      destruct (String.eqb_spec (bt_id (btp_boxType u)) id) as [->|Hne];
        cbn [List.length]; lia.
Qed.

Lemma unitsWithId_expand id boxTypes :
  Forall validBoxType boxTypes ->
  unitsWithId id (expandBoxTypes boxTypes)
  = sumQuantities (filter (typeHasId id) boxTypes).
Proof.
  unfold unitsWithId, expandBoxTypes.
  induction 1 as [|bt bts (_ & _ & _ & Hq) Hbts IH]; [reflexivity|].
  cbn [flat_map filter]. rewrite filter_app, length_app, Nat2Z.inj_add, IH.
  unfold expandBoxType.
  assert (Hf : forall l,
    filter (fun u => typeHasId id (btp_boxType u)) (map (mkBoxToPlace bt) l)
    = if typeHasId id bt then map (mkBoxToPlace bt) l else []).
  { induction l as [|i l IHl]; cbn [map filter btp_boxType].
    - now destruct (typeHasId id bt).
    - rewrite IHl. now destruct (typeHasId id bt). }
  rewrite Hf. destruct (typeHasId id bt); cbn [sumQuantities fold_right].
  - rewrite length_map, length_seq. fold (sumQuantities (filter (typeHasId id) bts)).
    lia.
  - cbn [List.length]. lia.
Qed.

Lemma filter_perm {A} (f : A -> bool) l l' :
  Permutation l l' -> Permutation (filter f l) (filter f l').
Proof.
  induction 1 as [|x l l' Hp IH|x y l|l l' l'' H1 IH1 H2 IH2]; cbn [filter].
  - constructor.
  - destruct (f x); [now constructor|assumption].
  - destruct (f x), (f y); try reflexivity. apply perm_swap.
  - now transitivity (filter f l').
Qed.

Lemma unitsWithId_unitsOf id boxTypes :
  Forall validBoxType boxTypes ->
  unitsWithId id (unitsOf boxTypes)
  = sumQuantities (filter (typeHasId id) boxTypes).
Proof.
  intro H. rewrite <- (unitsWithId_expand id boxTypes H).
  unfold unitsWithId, unitsOf. f_equal. symmetry.
  apply Permutation_length. apply filter_perm. apply sort_perm.
Qed.

Lemma unpackedCounts_NoDup c boxTypes :
  NoDup (map fst (st_unpackedCounts
                    (runLoop (initialState c) (unitsOf boxTypes)))).
Proof.
  apply (runLoop_invariant
           (fun st => NoDup (map fst (st_unpackedCounts st)))
           (fun _ => True)).
  - intros u st st' _ Hst Hstep.
    destruct Hstep as [l1 l2 s bl bw bh Hsp Hrot Hfit _|]; [assumption|].
    cbn [st_unpackedCounts]. now apply map_set_keys_NoDup.
  - rewrite Forall_forall. trivial.
  - constructor.
Qed.

Lemma findBoxType_id boxTypes id bt :
  findBoxType boxTypes id = Some bt -> In bt boxTypes /\ bt_id bt = id.
Proof.
  unfold findBoxType. intro H. apply find_some in H.
  destruct H as [Hin Heq]. split; [assumption|].
  now apply String.eqb_eq.
Qed.

Lemma buildUnpacked_by_id boxTypes id counts :
  Forall (fun kv => requestedId boxTypes (fst kv)) counts ->
  NoDup (map fst counts) ->
  sumQuantities (filter (typeHasId id) (buildUnpacked boxTypes counts))
  = getCount counts id.
Proof.
  induction 1 as [|[k n] counts Hk Hrest IH]; intro Hnd; [reflexivity|].
  cbn [map fst] in Hnd. inversion_clear Hnd as [|? ? Hfresh Hnd'].
  cbn [buildUnpacked]. cbn [fst] in Hk.
  destruct (findBoxType_requested _ _ Hk) as [bt Hfind]. rewrite Hfind.
  apply findBoxType_id in Hfind. destruct Hfind as [_ Hid].
  cbn [filter]. unfold typeHasId at 1. cbn [withQuantity bt_id].
  unfold getCount. cbn [map_get]. rewrite Hid.
  destruct (String.eqb_spec k id) as [->|Hne].
  - cbn [sumQuantities fold_right quantity withQuantity].
    fold (sumQuantities (filter (typeHasId id) (buildUnpacked boxTypes counts))).
    rewrite (IH Hnd'). unfold getCount.
    rewrite (map_get_absent _ _ Hfresh).
    destruct (Z.eqb_spec n 0); lia.
  - rewrite (IH Hnd'). reflexivity.
Qed.

(** X7: for every valid input and every identifier, the placed boxes of the
    box types with this identifier and the quantities of the unpacked
    records with this identifier add up to the quantities requested under
    this identifier. *)
Theorem accounting_by_box_type c boxTypes id :
  validInput c boxTypes ->
  let r := packBoxes c boxTypes in
  (placedWithId id (boxes r)
   + sumQuantities (filter (typeHasId id) (unpacked r))
   = sumQuantities (filter (typeHasId id) boxTypes))%Z.
Proof.
  intros [_ Hb]. cbv zeta.
  change (unpacked (packBoxes c boxTypes))
    with (buildUnpacked boxTypes
            (st_unpackedCounts (runLoop (initialState c) (unitsOf boxTypes)))).
  rewrite boxes_packBoxes.
  rewrite (buildUnpacked_by_id boxTypes id _
             (unpackedCounts_keys c boxTypes) (unpackedCounts_NoDup c boxTypes)).
  rewrite (runLoop_accounting_by_id id (unitsOf boxTypes) (initialState c)).
  rewrite (unitsWithId_unitsOf id boxTypes Hb).
  unfold placedWithId, getCount. cbn. lia.
Qed.

Lemma accounting_by_box_type_witness :
  validInput stack_container stack_boxTypes /\
  (placedWithId "parcel" (boxes (packBoxes stack_container stack_boxTypes))
   + sumQuantities (filter (typeHasId "parcel")
                      (unpacked (packBoxes stack_container stack_boxTypes)))
   = 4)%Z.
Proof.
  split; [valid_input|].
  apply (accounting_by_box_type stack_container stack_boxTypes "parcel").
  valid_input.
Defined.

(** ** The unpacked list *)

Lemma map_set_values (P : Z -> Prop) m k v :
  P v -> Forall (fun kv => P (snd kv)) m ->
  Forall (fun kv => P (snd kv)) (map_set m k v).
Proof.
  intros Hv. induction 1 as [|[k' v'] m Hkv Hm IH]; cbn [map_set].
  - constructor; [assumption|constructor].
  - destruct (String.eqb k' k); constructor; assumption.
Qed.

Lemma getCount_nonneg m k :
  Forall (fun kv => (1 <= snd kv)%Z) m -> (0 <= getCount m k)%Z.
Proof.
  unfold getCount. induction 1 as [|[k' v'] m Hkv Hm IH]; cbn [map_get].
  - lia.
  - destruct (String.eqb k' k); [|assumption].
    cbn [snd] in Hkv. destruct (Z.eqb_spec v' 0); lia.
Qed.

Lemma unpackedCounts_positive c boxTypes :
  Forall (fun kv => (1 <= snd kv)%Z)
         (st_unpackedCounts (runLoop (initialState c) (unitsOf boxTypes))).
Proof.
  apply (runLoop_invariant
           (fun st => Forall (fun kv => (1 <= snd kv)%Z) (st_unpackedCounts st))
           (fun _ => True)).
  - intros u st st' _ Hst Hstep.
    destruct Hstep as [l1 l2 s bl bw bh Hsp Hrot Hfit _|]; [assumption|].
    cbn [st_unpackedCounts].
    apply (map_set_values (fun v => (1 <= v)%Z)); [|assumption].
    pose proof (getCount_nonneg _ (bt_id (btp_boxType u)) Hst). lia.
  - rewrite Forall_forall. trivial.
  - constructor.
Qed.

Lemma buildUnpacked_ids boxTypes counts :
  Forall (fun kv => requestedId boxTypes (fst kv)) counts ->
  map bt_id (buildUnpacked boxTypes counts) = map fst counts.
Proof.
  induction 1 as [|[k n] counts Hk Hrest IH]; [reflexivity|].
  cbn [buildUnpacked]. cbn [fst] in Hk.
  destruct (findBoxType_requested _ _ Hk) as [bt Hfind]. rewrite Hfind.
  apply findBoxType_id in Hfind. destruct Hfind as [_ Hid].
  cbn [map fst withQuantity bt_id]. now rewrite IH, Hid.
Qed.

Lemma buildUnpacked_In boxTypes counts u :
  In u (buildUnpacked boxTypes counts) ->
  exists bt n, In (bt_id bt, n) counts /\ findBoxType boxTypes (bt_id bt) = Some bt /\
               u = withQuantity bt n.
Proof.
  induction counts as [|[k n] counts IH]; cbn [buildUnpacked]; [intros []|].
  destruct (findBoxType boxTypes k) as [bt|] eqn:Hfind.
  - intros [<-|Hin].
    + pose proof (findBoxType_id _ _ _ Hfind) as [_ Hid]. subst k.
      exists bt, n. split; [now left|]. now split.
    + destruct (IH Hin) as (bt' & n' & Hc & Hf & Hu).
      exists bt', n'. split; [now right|]. now split.
  - intro Hin. destruct (IH Hin) as (bt' & n' & Hc & Hf & Hu).
    exists bt', n'. split; [now right|]. now split.
Qed.

(** X8: the unpacked list holds at most one record per identifier; every
    record is the first requested box type with its identifier, with the
    quantity replaced by a count of at least 1. *)
Theorem unpacked_records c boxTypes :
  let r := packBoxes c boxTypes in
  NoDup (map bt_id (unpacked r)) /\
  forall u, In u (unpacked r) ->
    (1 <= quantity u)%Z /\
    exists bt, In bt boxTypes /\
               findBoxType boxTypes (bt_id u) = Some bt /\
               u = withQuantity bt (quantity u).
Proof.
  cbv zeta.
  change (unpacked (packBoxes c boxTypes))
    with (buildUnpacked boxTypes
            (st_unpackedCounts (runLoop (initialState c) (unitsOf boxTypes)))).
  split.
  - rewrite (buildUnpacked_ids _ _ (unpackedCounts_keys c boxTypes)).
    apply unpackedCounts_NoDup.
  - intros u Hu. apply buildUnpacked_In in Hu.
    destruct Hu as (bt & n & Hc & Hf & ->).
    pose proof (unpackedCounts_positive c boxTypes) as Hpos.
    rewrite Forall_forall in Hpos. specialize (Hpos _ Hc). cbn [snd] in Hpos.
    cbn [withQuantity quantity bt_id]. split; [assumption|].
    exists bt. split; [exact (proj1 (findBoxType_id _ _ _ Hf))|]. now split.
Qed.

(** ** Order of placement *)





(** ** The fragility check *)

Lemma restsOn_restsOnAt f b :
  restsOn f b = restsOnAt f (position b) (dimensions b).
Proof. reflexivity. Qed.




(** ** Rotation descriptor *)

Lemma rotation_final c boxTypes :
  Forall (fun b => rotation b
                   = getRotationFromDimensions (boxType b)
                       (dim_length (dimensions b), dim_width (dimensions b),
                        dim_height (dimensions b)))
         (st_packedBoxes (runLoop (initialState c) (unitsOf boxTypes))).
Proof.
  apply (runLoop_invariant
           (fun st => Forall (fun b => rotation b
                        = getRotationFromDimensions (boxType b)
                            (dim_length (dimensions b), dim_width (dimensions b),
                             dim_height (dimensions b)))
                        (st_packedBoxes st))
           (fun _ => True)).
  - intros u st st' _ Hst Hstep.
    destruct Hstep as [l1 l2 s bl bw bh Hsp Hrot Hfit _|]; [|assumption].
    cbn [st_packedBoxes]. apply Forall_app. split; [assumption|].
    constructor; [reflexivity|constructor].
  - rewrite Forall_forall. trivial.
  - constructor.
Qed.

(** X12: the rotation of a placed box only ever turns about the vertical
    axis; a quarter turn is reported only when length and width are those
    of the box type swapped and the height is kept, and for a fragile box
    the descriptor tells the orientation: no turn means the dimensions of
    the box type as given. *)
Theorem rotation_descriptor c boxTypes b :
  In b (boxes (packBoxes c boxTypes)) ->
  rot_x (rotation b) = Angle0 /\ rot_z (rotation b) = Angle0 /\
  (rot_y (rotation b) = AngleHalfPi ->
   dim_length (dimensions b) == bt_width (boxType b) /\
   dim_width (dimensions b) == bt_length (boxType b) /\
   dim_height (dimensions b) == bt_height (boxType b)) /\
  (isFragile (boxType b) = true -> rot_y (rotation b) = Angle0 ->
   dim_length (dimensions b) == bt_length (boxType b) /\
   dim_width (dimensions b) == bt_width (boxType b) /\
   dim_height (dimensions b) == bt_height (boxType b)).
Proof.
  intro Hb. rewrite boxes_packBoxes in Hb.
  pose proof (rotation_final c boxTypes) as Hrot.
  pose proof (fromSpecs_final c boxTypes) as Hspec.
  rewrite Forall_forall in Hrot, Hspec.
  specialize (Hrot b Hb). destruct (Hspec b Hb) as [_ Hin].
  rewrite Hrot. unfold getRotationFromDimensions.
  destruct (Qeq_bool (dim_length (dimensions b)) (bt_length (boxType b))
            && Qeq_bool (dim_width (dimensions b)) (bt_width (boxType b))
            && Qeq_bool (dim_height (dimensions b)) (bt_height (boxType b)))
    eqn:E1.
  - cbn [rot_x rot_y rot_z]. repeat split; try discriminate.
    all: apply andb_true_iff in E1; destruct E1 as [E1 E1h];
      apply andb_true_iff in E1; destruct E1 as [E1l E1w];
      now apply Qeq_bool_iff.
  - destruct (Qeq_bool (dim_length (dimensions b)) (bt_width (boxType b))
              && Qeq_bool (dim_width (dimensions b)) (bt_length (boxType b))
              && Qeq_bool (dim_height (dimensions b)) (bt_height (boxType b)))
      eqn:E2; cbn [rot_x rot_y rot_z].
    + split; [reflexivity|]. split; [reflexivity|]. split; [|discriminate].
      intros _. apply andb_true_iff in E2. destruct E2 as [E2 E2h].
      apply andb_true_iff in E2. destruct E2 as [E2l E2w].
      repeat split; now apply Qeq_bool_iff.
    + split; [reflexivity|]. split; [reflexivity|]. split; [discriminate|].
      intros Hfrag _. exfalso. unfold getRotations in Hin.
      rewrite Hfrag in Hin.
      destruct Hin as [Hin|[Hin|[]]]; injection Hin as Hl Hw Hh.
      * rewrite <- Hl, <- Hw, <- Hh in E1.
        rewrite !(proj2 (Qeq_bool_iff _ _) (Qeq_refl _)) in E1. discriminate.
      * rewrite <- Hl, <- Hw, <- Hh in E2.
        rewrite !(proj2 (Qeq_bool_iff _ _) (Qeq_refl _)) in E2. discriminate.
Qed.

Lemma rotation_descriptor_witness :
  exists b,
    nth_error (boxes (packBoxes sample_container sample_boxTypes)) 2 = Some b /\
    rot_x (rotation b) = Angle0 /\
    dim_height (dimensions b) == bt_height (boxType b).
Proof.
  eexists. split; [reflexivity|].
  match goal with
  | |- rot_x (rotation ?b) = _ /\ _ =>
    destruct (rotation_descriptor sample_container sample_boxTypes b)
      as (Hx & _ & _ & Hfrag)
  end.
  - apply (nth_error_In _ 2). reflexivity.
  - split; [exact Hx|]. apply Hfrag; reflexivity.
Defined.

(** ** Identifiers of placed boxes *)

Lemma digits_noUnderscore d : noUnderscore (NilEmpty.string_of_uint d).
Proof.
  induction d; cbn [NilEmpty.string_of_uint noUnderscore];
    try exact I; (split; [discriminate|assumption]).
Qed.

Lemma index_noUnderscore i :
  noUnderscore (NilZero.string_of_uint (Nat.to_uint i)).
Proof.
  unfold NilZero.string_of_uint.
  destruct (Nat.to_uint i) eqn:E; try (rewrite <- E; apply digits_noUnderscore).
  cbn. split; [discriminate|exact I].
Qed.

Lemma index_string_inj i j :
  NilZero.string_of_uint (Nat.to_uint i) = NilZero.string_of_uint (Nat.to_uint j) ->
  i = j.
Proof.
  intro H.
  assert (Hdec : forall d,
    option_map Nat.of_uint (NilZero.uint_of_string (NilZero.string_of_uint d))
    = Some (Nat.of_uint d)).
  { intro d. destruct d; try reflexivity;
      (rewrite NilZero.usu; [reflexivity|discriminate]). }
  pose proof (Hdec (Nat.to_uint i)) as Hi.
  pose proof (Hdec (Nat.to_uint j)) as Hj.
  rewrite H, Hj, !DecimalNat.Unsigned.of_to in Hi. congruence.
Qed.

Lemma noUnderscore_append s d : ~ noUnderscore (s ++ String "_" d).
Proof.
  induction s as [|a s IH]; cbn [append noUnderscore].
  - intros [H _]. now apply H.
  - intros [_ H]. now apply IH.
Qed.

Lemma append_separator_inj s1 : forall s2 d1 d2,
  noUnderscore d1 -> noUnderscore d2 ->
  (s1 ++ String "_" d1 = s2 ++ String "_" d2)%string ->
  s1 = s2 /\ d1 = d2.
Proof.
  induction s1 as [|a s1 IH]; intros [|b s2] d1 d2 H1 H2 E;
    cbn [append] in E.
  - injection E as ->. now split.
  - injection E as <- ->. exfalso. now apply (noUnderscore_append s2 d2).
  - injection E as -> <-. exfalso. now apply (noUnderscore_append s1 d1).
  - injection E as -> E. destruct (IH s2 d1 d2 H1 H2 E) as [-> ->]. now split.
Qed.

(** The identifier of a placed box determines the identifier of its box
    type and its index. *)
Lemma packedBoxId_inj bt i bt' j :
  packedBoxId bt i = packedBoxId bt' j -> bt_id bt = bt_id bt' /\ i = j.
Proof.
  unfold packedBoxId. intro E.
  apply append_separator_inj in E; try apply index_noUnderscore.
  destruct E as [Hid Hidx]. split; [assumption|].
  now apply index_string_inj.
Qed.

Lemma unitIds_NoDup boxTypes :
  NoDup (map bt_id boxTypes) -> NoDup (map unitId (expandBoxTypes boxTypes)).
Proof.
  unfold expandBoxTypes.
  induction boxTypes as [|bt bts IH]; intro Hnd; [constructor|].
  cbn [map] in Hnd. inversion_clear Hnd as [|? ? Hfresh Hrest].
  cbn [flat_map]. rewrite map_app. apply NoDup_app.
  - unfold expandBoxType. rewrite map_map.
    apply NoDup_map_NoDup_ForallPairs; [|apply seq_NoDup].
    intros i j _ _ E. unfold unitId in E. cbn in E.
    now apply packedBoxId_inj in E.
  - now apply IH.
  - intros id Hin1 Hin2.
    apply in_map_iff in Hin1. destruct Hin1 as (u1 & <- & Hu1).
    apply in_map_iff in Hin2. destruct Hin2 as (u2 & E & Hu2).
    unfold expandBoxType in Hu1. apply in_map_iff in Hu1.
    destruct Hu1 as (i & <- & _).
    apply in_flat_map in Hu2. destruct Hu2 as (bt' & Hbt' & Hu2).
    unfold expandBoxType in Hu2. apply in_map_iff in Hu2.
    destruct Hu2 as (j & <- & _).
    unfold unitId in E. cbn in E. apply packedBoxId_inj in E.
    destruct E as [E _]. apply Hfresh. rewrite <- E. now apply in_map.
Qed.

Lemma runLoop_keeps_ids units : forall st,
  NoDup (map pb_id (st_packedBoxes st) ++ map unitId units) ->
  NoDup (map pb_id (st_packedBoxes (runLoop st units))).
Proof.
  induction units as [|u units IH]; intros st H.
  - cbn [map] in H. now rewrite app_nil_r in H.
  - change (runLoop st (u :: units)) with (runLoop (placeBox st u) units).
    apply IH.
    destruct (placeBox_step st u) as [l1 l2 s bl bw bh Hsp Hrot Hfit Hfrag|];
      cbn [st_packedBoxes].
    + rewrite map_app, <- app_assoc. exact H.
    + cbn [map] in H. now apply NoDup_remove_1 in H.
Qed.

(** X13: when the requested box types carry pairwise distinct identifiers,
    the placed boxes carry pairwise distinct identifiers. *)
Theorem placed_ids_distinct c boxTypes :
  NoDup (map bt_id boxTypes) ->
  NoDup (map pb_id (boxes (packBoxes c boxTypes))).
Proof.
  intro Hnd. rewrite boxes_packBoxes. apply runLoop_keeps_ids.
  cbn [initialState st_packedBoxes map app]. unfold unitsOf.
  eapply Permutation_NoDup; [|apply (unitIds_NoDup _ Hnd)].
  apply Permutation_map. apply sort_perm.
Qed.

Lemma placed_ids_distinct_witness :
  NoDup (map pb_id (boxes (packBoxes stack_container stack_boxTypes))).
Proof.
  apply (placed_ids_distinct stack_container stack_boxTypes).
  cbn. repeat constructor; cbn; intuition discriminate.
Defined.

(** * The input form and the application *)

Lemma positive_not_le q : Qle_bool q 0 = false <-> 0 < q.
Proof.
  split; intro H.
  - apply Qnot_le_lt. intro Hle. apply Qle_bool_iff in Hle. congruence.
  - destruct (Qle_bool q 0) eqn:E; [|reflexivity].
    apply Qle_bool_iff in E. apply Qle_not_lt in E. contradiction.
Qed.

Lemma validateBoxTypes_None boxTypes :
  validateBoxTypes boxTypes = None <->
  Forall (fun b => 0 < bt_length b /\ 0 < bt_width b /\ 0 < bt_height b /\
                   (1 <= quantity b)%Z) boxTypes.
Proof.
  induction boxTypes as [|box rest IH]; cbn [validateBoxTypes].
  - split; [constructor|reflexivity].
  - destruct (Qle_bool (bt_length box) 0) eqn:El;
      [split; [discriminate|];
       intro H; inversion_clear H as [|? ? (Hl & _) _];
       apply positive_not_le in Hl; congruence|].
    destruct (Qle_bool (bt_width box) 0) eqn:Ew;
      [split; [discriminate|];
       intro H; inversion_clear H as [|? ? (_ & Hw & _) _];
       apply positive_not_le in Hw; congruence|].
    destruct (Qle_bool (bt_height box) 0) eqn:Eh;
      [split; [discriminate|];
       intro H; inversion_clear H as [|? ? (_ & _ & Hh & _) _];
       apply positive_not_le in Hh; congruence|].
    cbn [orb]. destruct (Z.leb_spec (quantity box) 0) as [Hq|Hq].
    + split; [discriminate|].
      intro H. inversion_clear H as [|? ? (_ & _ & _ & Hq') _]. lia.
    + rewrite IH. apply positive_not_le in El, Ew, Eh. split.
      * intro H. constructor; [|assumption]. repeat split; auto. lia.
      * intro H. now inversion H.
Qed.

(** X14: the form hands data to the application exactly when the container
    has positive dimensions, at least one box type is listed and every box
    type has positive dimensions and a quantity of at least 1; the data it
    hands over are the container and the box types of the form, and they
    are a valid input of the engine. *)
Theorem form_submits_iff_accepted container boxTypes :
  (InputForm_handleSubmit container boxTypes
   = Submit (mkInputData container boxTypes)
   <-> acceptedByForm container boxTypes) /\
  (forall data,
     InputForm_handleSubmit container boxTypes = Submit data ->
     data = mkInputData container boxTypes /\
     validInput container boxTypes).
Proof.
  assert (Hiff : InputForm_handleSubmit container boxTypes
                 = Submit (mkInputData container boxTypes)
                 <-> acceptedByForm container boxTypes).
  { unfold InputForm_handleSubmit, acceptedByForm, validContainer.
    destruct (Qle_bool (ct_length container) 0) eqn:El;
      [split; [discriminate|];
       intros ((Hl & _) & _); apply positive_not_le in Hl; congruence|].
    destruct (Qle_bool (ct_width container) 0) eqn:Ew;
      [split; [discriminate|];
       intros ((_ & Hw & _) & _); apply positive_not_le in Hw; congruence|].
    destruct (Qle_bool (ct_height container) 0) eqn:Eh;
      [split; [discriminate|];
       intros ((_ & _ & Hh) & _); apply positive_not_le in Hh; congruence|].
    cbn [orb]. apply positive_not_le in El, Ew, Eh.
    destruct boxTypes as [|box rest]; cbn [List.length Nat.eqb].
    - split; [discriminate|]. intros (_ & Hne & _). now contradiction Hne.
    - destruct (validateBoxTypes (box :: rest)) as [m|] eqn:Ev.
      + split; [discriminate|]. intros (_ & _ & Hall).
        apply validateBoxTypes_None in Hall. congruence.
      + apply validateBoxTypes_None in Ev.
        split; [|reflexivity]. intros _.
        split; [now repeat split|]. split; [discriminate|assumption]. }
  split; [exact Hiff|].
  intros data Hsub.
  assert (Hd : data = mkInputData container boxTypes).
  { unfold InputForm_handleSubmit in Hsub.
    destruct (_ || _ || _); [discriminate|].
    destruct (_ =? _)%nat; [discriminate|].
    destruct (validateBoxTypes boxTypes); [discriminate|]. congruence. }
  split; [assumption|]. subst data. apply Hiff in Hsub.
  destruct Hsub as (Hc & _ & Hall). split; [assumption|].
  eapply Forall_impl; [|exact Hall].
  intros b (Hl & Hw & Hh & Hq). repeat split; auto. lia.
Qed.

(** X15: the alerts of the form come in a fixed order: a container with a
    non-positive dimension is reported before anything else; then an empty
    list of box types; then the first box type, in list order, that has a
    non-positive dimension or a quantity below 1, the dimensions being
    checked before the quantity. *)
Theorem form_alert_order container boxTypes :
  (~ validContainer container ->
   InputForm_handleSubmit container boxTypes
   = Alert "Container dimensions must be positive numbers") /\
  (validContainer container -> boxTypes = [] ->
   InputForm_handleSubmit container boxTypes
   = Alert "Please add at least one box type") /\
  (validContainer container ->
   forall good box rest,
     boxTypes = good ++ box :: rest ->
     validateBoxTypes good = None ->
     (~ (0 < bt_length box /\ 0 < bt_width box /\ 0 < bt_height box) ->
      InputForm_handleSubmit container boxTypes
      = Alert (invalidDimensionsMessage box)) /\
     (0 < bt_length box /\ 0 < bt_width box /\ 0 < bt_height box ->
      (quantity box <= 0)%Z ->
      InputForm_handleSubmit container boxTypes
      = Alert (invalidQuantityMessage box))).
Proof.
  unfold InputForm_handleSubmit, validContainer.
  split; [|split].
  - intro Hbad.
    destruct (Qle_bool (ct_length container) 0) eqn:El; [reflexivity|].
    destruct (Qle_bool (ct_width container) 0) eqn:Ew; [reflexivity|].
    destruct (Qle_bool (ct_height container) 0) eqn:Eh; [reflexivity|].
    apply positive_not_le in El, Ew, Eh. exfalso. now apply Hbad.
  - intros (Hl & Hw & Hh) ->.
    apply positive_not_le in Hl, Hw, Hh. now rewrite Hl, Hw, Hh.
  - intros (Hl & Hw & Hh) good box rest -> Hgood.
    apply positive_not_le in Hl, Hw, Hh. rewrite Hl, Hw, Hh. cbn [orb].
    assert (Hlen : (List.length (good ++ box :: rest) =? 0)%nat = false)
      by (rewrite length_app; cbn [List.length]; apply Nat.eqb_neq; lia).
    rewrite Hlen.
    assert (Hval : validateBoxTypes (good ++ box :: rest)
                   = validateBoxTypes (box :: rest)).
    { clear Hlen. induction good as [|g good IH]; [reflexivity|].
      cbn [app validateBoxTypes] in *.
      destruct (_ || _ || _); [discriminate|].
      destruct (_ <=? _)%Z; [discriminate|]. now apply IH. }
    rewrite Hval. cbn [validateBoxTypes]. split.
    + intro Hbad.
      destruct (Qle_bool (bt_length box) 0) eqn:El; [reflexivity|].
      destruct (Qle_bool (bt_width box) 0) eqn:Ew; [reflexivity|].
      destruct (Qle_bool (bt_height box) 0) eqn:Eh; [reflexivity|].
      apply positive_not_le in El, Ew, Eh. exfalso. now apply Hbad.
    + intros (Hbl & Hbw & Hbh) Hq.
      apply positive_not_le in Hbl, Hbw, Hbh. rewrite Hbl, Hbw, Hbh.
      cbn [orb]. apply Z.leb_le in Hq. now rewrite Hq.
Qed.

Lemma form_alert_dichotomy container boxTypes :
  (InputForm_handleSubmit container boxTypes
   = Submit (mkInputData container boxTypes) /\
   acceptedByForm container boxTypes) \/
  ((exists m, InputForm_handleSubmit container boxTypes = Alert m) /\
   ~ acceptedByForm container boxTypes).
Proof.
  destruct (InputForm_handleSubmit container boxTypes) as [m|data] eqn:E.
  - right. split; [now exists m|]. intro Hacc.
    assert (Hsub : InputForm_handleSubmit container boxTypes
                   = Submit (mkInputData container boxTypes)).
    { unfold InputForm_handleSubmit, acceptedByForm, validContainer in *.
      destruct Hacc as ((Hl & Hw & Hh) & Hne & Hall).
      apply positive_not_le in Hl, Hw, Hh. rewrite Hl, Hw, Hh. cbn [orb].
      destruct boxTypes as [|b bts]; [now contradiction Hne|].
      cbn [List.length Nat.eqb].
      now rewrite (proj2 (validateBoxTypes_None _) Hall). }
    congruence.
  - left.
    assert (Hd : data = mkInputData container boxTypes).
    { unfold InputForm_handleSubmit in E.
      destruct (_ || _ || _); [discriminate|].
      destruct (_ =? _)%nat; [discriminate|].
      destruct (validateBoxTypes boxTypes); [discriminate|]. congruence. }
    subst data. split; [reflexivity|].
    unfold InputForm_handleSubmit, acceptedByForm, validContainer in *.
    destruct (Qle_bool (ct_length container) 0) eqn:El; [discriminate|].
    destruct (Qle_bool (ct_width container) 0) eqn:Ew; [discriminate|].
    destruct (Qle_bool (ct_height container) 0) eqn:Eh; [discriminate|].
    cbn [orb] in E. apply positive_not_le in El, Ew, Eh.
    destruct boxTypes as [|b bts]; [discriminate|].
    cbn [List.length Nat.eqb] in E.
    destruct (validateBoxTypes (b :: bts)) eqn:Ev; [discriminate|].
    apply validateBoxTypes_None in Ev.
    split; [now repeat split|]. split; [discriminate|assumption].
Qed.

Lemma sumQuantities_accepted boxTypes :
  boxTypes <> [] ->
  Forall (fun b => 0 < bt_length b /\ 0 < bt_width b /\ 0 < bt_height b /\
                   (1 <= quantity b)%Z) boxTypes ->
  (1 <= sumQuantities boxTypes)%Z.
Proof.
  intros Hne Hall. destruct Hall as [|b bts Hb Hrest]; [contradiction|].
  cbn [sumQuantities fold_right].
  assert (0 <= fold_right (fun b acc => quantity b + acc) 0 bts)%Z.
  { clear Hne Hb. induction Hrest as [|b' bts Hb' Hrest IH];
      cbn [fold_right]; lia. }
  lia.
Qed.

Lemma totalBoxes_requested c boxTypes :
  Forall validBoxType boxTypes ->
  totalBoxes (stats (packBoxes c boxTypes)) = sumQuantities boxTypes.
Proof.
  intro Hb. unfold packBoxes, packBoxesWith. cbn [stats totalBoxes].
  fold (unitsOf boxTypes).
  rewrite length_unitsOf. now apply length_expandBoxTypes.
Qed.

(** X16: whenever the form passes its validation, the application shows
    the visualizer with the submitted data and the result of the engine for
    that data, whose statistics count every requested unit, at least one,
    as packed or unpacked; whenever the form raises an alert, the
    application state is left as it was. *)
Theorem submitForm_outcome st container boxTypes :
  (acceptedByForm container boxTypes ->
   let st' := submitForm st container boxTypes in
   currentView st' = VisualizerView /\
   inputData st' = mkInputData container boxTypes /\
   exists r,
     packingResult st' = Some r /\ r = packBoxes container boxTypes /\
     totalBoxes (stats r) = sumQuantities boxTypes /\
     (1 <= totalBoxes (stats r))%Z /\
     (packedBoxesCount (stats r) + unpackedBoxes (stats r)
      = totalBoxes (stats r))%Z) /\
  (~ acceptedByForm container boxTypes ->
   submitForm st container boxTypes = st).
Proof.
  pose proof (form_alert_dichotomy container boxTypes) as Hd.
  split.
  - intros Hacc. cbv zeta. unfold submitForm.
    destruct Hd as [[Hsub Hacc']|[(m & Hal) Hrej]]; [|contradiction].
    rewrite Hsub. cbn [App_handleSubmit currentView inputData packingResult
                         in_container in_boxTypes].
    split; [reflexivity|]. split; [reflexivity|].
    exists (packBoxes container boxTypes).
    split; [reflexivity|]. split; [reflexivity|].
    destruct Hacc as (Hc & Hne & Hall).
    assert (Hvalid : Forall validBoxType boxTypes).
    { eapply Forall_impl; [|exact Hall].
      intros b (Hl & Hw & Hh & Hq). repeat split; auto. lia. }
    pose proof (totalBoxes_requested container boxTypes Hvalid) as Htotal.
    pose proof (sumQuantities_accepted boxTypes Hne Hall) as Hsum.
    split; [exact Htotal|]. split; [lia|].
    unfold packBoxes, packBoxesWith.
    cbn [stats totalBoxes packedBoxesCount unpackedBoxes]. lia.
  - intros Hrej. unfold submitForm.
    destruct Hd as [[Hsub Hacc']|[(m & Hal) _]]; [contradiction|].
    now rewrite Hal.
Qed.

Lemma form_submits_iff_accepted_witness :
  InputForm_handleSubmit sample_container sample_boxTypes
  = Submit (mkInputData sample_container sample_boxTypes) /\
  validInput sample_container sample_boxTypes.
Proof.
  split; [reflexivity|].
  exact (proj2 (proj2 (form_submits_iff_accepted sample_container
                         sample_boxTypes) _ eq_refl)).
Defined.

Lemma form_alert_order_witness :
  validContainer sample_container /\
  InputForm_handleSubmit sample_container
    (sample_boxTypes
     ++ [mkBoxType "bad" "Bad" 10 0 10 1 false "#000000" 0;
         mkBoxType "worse" "Worse" 0 0 0 1 false "#000000" 0])
  = Alert (invalidDimensionsMessage
             (mkBoxType "bad" "Bad" 10 0 10 1 false "#000000" 0)).
Proof.
  split; [valid_input|].
  refine (proj1 (proj2 (proj2 (form_alert_order sample_container _)) _
                   sample_boxTypes _ _ eq_refl eq_refl) _).
  - valid_input.
  - intros (_ & Hw & _). discriminate Hw.
Defined.

Lemma submitForm_outcome_witness :
  acceptedByForm sample_container sample_boxTypes /\
  currentView
    (submitForm (mkAppState InputView (mkInputData sample_container []) None)
       sample_container sample_boxTypes)
  = VisualizerView.
Proof.
  assert (Hacc : acceptedByForm sample_container sample_boxTypes).
  { split; [valid_input|]. split; [discriminate|].
    repeat first [ split | constructor | reflexivity | discriminate ]. }
  split; [exact Hacc|].
  exact (proj1 (proj1 (submitForm_outcome
                         (mkAppState InputView
                            (mkInputData sample_container []) None)
                         sample_container sample_boxTypes) Hacc)).
Defined.

(** ** The warning of the statistics panel *)

Lemma sumCounts_positive m :
  Forall (fun kv => (1 <= snd kv)%Z) m -> m <> [] -> (0 < sumCounts m)%Z.
Proof.
  intros H Hne. destruct H as [|[k v] m Hv Hm]; [contradiction|].
  cbn [sumCounts fold_right snd] in *.
  assert (0 <= fold_right (fun kv acc => snd kv + acc) 0 m)%Z.
  { clear Hne Hv. induction Hm as [|kv m Hkv Hm IH]; cbn [fold_right]; lia. }
  lia.
Qed.

Lemma buildUnpacked_nil boxTypes counts :
  Forall (fun kv => requestedId boxTypes (fst kv)) counts ->
  buildUnpacked boxTypes counts = [] <-> counts = [].
Proof.
  intros H. destruct H as [|[k n] counts Hk Hrest].
  - split; reflexivity.
  - cbn [buildUnpacked]. cbn [fst] in Hk.
    destruct (findBoxType_requested _ _ Hk) as [bt ->].
    split; discriminate.
Qed.

(** X17: the unpacked list is empty exactly when the unpacked count of the
    statistics is 0, so the panel, which shows its warning when the list is
    not empty, warns exactly when some requested unit was not placed. *)
Theorem unpacked_list_empty_iff_count_zero c boxTypes :
  let r := packBoxes c boxTypes in
  unpacked r = [] <-> unpackedBoxes (stats r) = 0%Z.
Proof.
  cbv zeta.
  change (unpacked (packBoxes c boxTypes))
    with (buildUnpacked boxTypes
            (st_unpackedCounts (runLoop (initialState c) (unitsOf boxTypes)))).
  change (unpackedBoxes (stats (packBoxes c boxTypes)))
    with (Z.of_nat (List.length (unitsOf boxTypes))
          - Z.of_nat (List.length
                        (st_packedBoxes
                           (runLoop (initialState c) (unitsOf boxTypes)))))%Z.
  rewrite (buildUnpacked_nil _ _ (unpackedCounts_keys c boxTypes)).
  pose proof (runLoop_accounting (unitsOf boxTypes) (initialState c)) as Hacc.
  cbn [initialState st_packedBoxes st_unpackedCounts List.length sumCounts
       fold_right] in Hacc.
  pose proof (unpackedCounts_positive c boxTypes) as Hpos.
  split.
  - intro E. rewrite E in Hacc. cbn [sumCounts fold_right] in Hacc. lia.
  - intro E.
    destruct (st_unpackedCounts (runLoop (initialState c) (unitsOf boxTypes)))
      as [|kv m] eqn:Em; [reflexivity|exfalso].
    assert (0 < sumCounts (kv :: m))%Z
      by (apply sumCounts_positive; [assumption|discriminate]).
    lia.
Qed.

(** * The visualizer *)

(** ** Editing quantities *)

Lemma handleQuantityChange_valid id q boxTypes :
  Forall validBoxType boxTypes ->
  Forall validBoxType (handleQuantityChange id q boxTypes).
Proof.
  unfold handleQuantityChange. intro H. rewrite Forall_forall in *.
  intros b Hb. apply in_map_iff in Hb. destruct Hb as (bt & <- & Hbt).
  destruct (String.eqb (bt_id bt) id); [|now apply H].
  destruct (H bt Hbt) as (Hl & Hw & Hh & _).
  unfold validBoxType. cbn [withQuantity bt_length bt_width bt_height quantity].
  repeat split; auto. lia.
Qed.

Lemma handleQuantityChange_ids id q boxTypes :
  map bt_id (handleQuantityChange id q boxTypes) = map bt_id boxTypes.
Proof.
  unfold handleQuantityChange. rewrite map_map. apply map_ext.
  intro bt. now destruct (String.eqb (bt_id bt) id).
Qed.

Lemma handleQuantityChange_other_fields id q boxTypes :
  map (fun b => withQuantity b 0) (handleQuantityChange id q boxTypes)
  = map (fun b => withQuantity b 0) boxTypes.
Proof.
  unfold handleQuantityChange. rewrite map_map. apply map_ext.
  intro bt. now destruct (String.eqb (bt_id bt) id).
Qed.

(** X18: a quantity edit in the visualizer gives the box types with the
    given identifier the new quantity, or 0 when it is negative; whatever
    edits are made to a valid list of box types, the list the recalculation
    passes to the engine is a valid input again, and it differs from the
    original list in quantities only. *)
Theorem quantity_edits_keep_input_valid c boxTypes edits :
  validInput c boxTypes ->
  validInput c (applyQuantityEdits edits boxTypes) /\
  map (fun b => withQuantity b 0) (applyQuantityEdits edits boxTypes)
  = map (fun b => withQuantity b 0) boxTypes /\
  forall id q b,
    In b (handleQuantityChange id q boxTypes) -> bt_id b = id ->
    quantity b = Z.max 0 q.
Proof.
  intros [Hc Hb]. split; [|split].
  - split; [assumption|]. unfold applyQuantityEdits.
    revert boxTypes Hb. induction edits as [|[id q] edits IH]; intros bts Hb;
      [assumption|].
    cbn [fold_left fst snd]. apply IH. now apply handleQuantityChange_valid.
  - unfold applyQuantityEdits. clear Hb.
    revert boxTypes. induction edits as [|[id q] edits IH]; intro bts;
      [reflexivity|].
    cbn [fold_left fst snd]. now rewrite IH, handleQuantityChange_other_fields.
  - intros id q b Hin Hid. unfold handleQuantityChange in Hin.
    apply in_map_iff in Hin. destruct Hin as (bt & Hbt & _).
    destruct (String.eqb_spec (bt_id bt) id) as [E|E].
    + now subst b.
    + subst b. contradiction.
Qed.

Lemma quantity_edits_keep_input_valid_witness :
  validInput sample_container sample_boxTypes /\
  validInput sample_container
    (applyQuantityEdits [("vase"%string, (-4)%Z); ("crate"%string, 7%Z)]
       sample_boxTypes).
Proof.
  split; [exact sample_valid|].
  exact (proj1 (quantity_edits_keep_input_valid sample_container
                  sample_boxTypes
                  [("vase"%string, (-4)%Z); ("crate"%string, 7%Z)]
                  sample_valid)).
Defined.

(** ** Topmost boxes *)









(** * Editing the list of box types *)

Lemma handleRemoveBox_absent id prev :
  ~ In id (map bt_id prev) -> handleRemoveBox id prev = prev.
Proof.
  unfold handleRemoveBox. induction prev as [|b prev IH]; intro H;
    [reflexivity|].
  cbn [filter]. destruct (String.eqb_spec (bt_id b) id) as [E|E].
  - exfalso. apply H. left. exact E.
  - cbn [negb]. f_equal. apply IH. intro Hin. apply H. now right.
Qed.

(** X21: removing a box type removes every entry with its identifier and
    nothing else; removing right after adding a box type with a fresh
    identifier gives back the list as it was. *)
Theorem remove_after_add_restores box prev :
  ~ In (bt_id box) (map bt_id prev) ->
  handleRemoveBox (bt_id box) (handleSaveBox None box prev) = prev /\
  forall id l,
    ~ In id (map bt_id (handleRemoveBox id l)) /\
    forall b, bt_id b <> id -> (In b (handleRemoveBox id l) <-> In b l).
Proof.
  intro Hfresh. split.
  - unfold handleSaveBox, handleRemoveBox. rewrite filter_app.
    cbn [filter]. rewrite String.eqb_refl. cbn [negb]. rewrite app_nil_r.
    now apply handleRemoveBox_absent.
  - intros id l. unfold handleRemoveBox. split.
    + intro Hin. apply in_map_iff in Hin. destruct Hin as (b & Hid & Hb).
      apply filter_In in Hb. destruct Hb as [_ Hne].
      rewrite <- Hid, String.eqb_refl in Hne. discriminate.
    + intros b Hne. rewrite filter_In. split; [tauto|].
      intro Hb. split; [assumption|].
      apply negb_true_iff. now apply String.eqb_neq.
Qed.

Lemma remove_after_add_restores_witness :
  handleRemoveBox "new"
    (handleSaveBox None (mkBoxType "new" "New" 30 20 15 5 false "#4a7dfc" 1)
       sample_boxTypes)
  = sample_boxTypes.
Proof.
  refine (proj1 (remove_after_add_restores
                   (mkBoxType "new" "New" 30 20 15 5 false "#4a7dfc" 1)
                   sample_boxTypes _)).
  cbn. intuition discriminate.
Defined.

(** X22: saving an edited box type replaces the entries that carry its
    identifier and no other: the list keeps its length and its identifiers,
    looking the identifier up afterwards finds the saved box type, and
    saving the same box type twice changes nothing more. *)
Theorem save_edited_box editing box prev :
  In (bt_id box) (map bt_id prev) ->
  let saved := handleSaveBox (Some editing) box prev in
  List.length saved = List.length prev /\
  map bt_id saved = map bt_id prev /\
  findBoxType saved (bt_id box) = Some box /\
  (forall b, bt_id b <> bt_id box -> (In b saved <-> In b prev)) /\
  handleSaveBox (Some editing) box saved = saved.
Proof.
  intro Hin. cbv zeta. unfold handleSaveBox.
  split; [apply length_map|]. split; [|split; [|split]].
  - rewrite map_map. apply map_ext_in. intros b _.
    destruct (String.eqb_spec (bt_id b) (bt_id box)); congruence.
  - unfold findBoxType. induction prev as [|b prev IH]; [contradiction|].
    cbn [map find].
    destruct (String.eqb_spec (bt_id b) (bt_id box)) as [E|E].
    + now rewrite String.eqb_refl.
    + destruct (String.eqb_spec (bt_id b) (bt_id box)); [contradiction|].
      apply IH. destruct Hin as [Hin|Hin]; [contradiction|exact Hin].
  - intros b Hne. rewrite in_map_iff. split.
    + intros (x & Hx & Hxin).
      destruct (String.eqb_spec (bt_id x) (bt_id box)); [congruence|].
      now subst.
    + intro Hb. exists b. split; [|assumption].
      destruct (String.eqb_spec (bt_id b) (bt_id box)); [contradiction|].
      reflexivity.
  - rewrite map_map. apply map_ext. intro b.
    destruct (String.eqb_spec (bt_id b) (bt_id box)) as [E|E].
    + now rewrite String.eqb_refl.
    + destruct (String.eqb_spec (bt_id b) (bt_id box)); [contradiction|].
      reflexivity.
Qed.

Lemma save_edited_box_witness :
  findBoxType
    (handleSaveBox (Some (mkBoxType "vase" "Vase" 30 20 15 3 true "#FF6B6B" 3))
       (mkBoxType "vase" "Tall vase" 30 20 45 4 true "#FF6B6B" 2)
       sample_boxTypes) "vase"
  = Some (mkBoxType "vase" "Tall vase" 30 20 45 4 true "#FF6B6B" 2).
Proof.
  refine (proj1 (proj2 (proj2
            (save_edited_box
               (mkBoxType "vase" "Vase" 30 20 15 3 true "#FF6B6B" 3)
               (mkBoxType "vase" "Tall vase" 30 20 45 4 true "#FF6B6B" 2)
               sample_boxTypes _)))).
  cbn. tauto.
Defined.

(** * Colours *)

Lemma includes_In l c : includes l c = true <-> In c l.
Proof.
  unfold includes. rewrite existsb_exists. split.
  - intros (x & Hx & E). apply String.eqb_eq in E. now subst.
  - intro H. exists c. split; [assumption|apply String.eqb_refl].
Qed.

(** X23: the next colour is always a colour of the palette (the random
    index being within the palette); it is the first palette colour not in
    use when there is one, and it is a colour already in use only when the
    whole palette is in use. *)
Theorem getNextColor_from_palette usedColors randomIndex :
  (randomIndex < List.length colorPalette)%nat ->
  In (getNextColor usedColors randomIndex) colorPalette /\
  (forall before c after,
     colorPalette = before ++ c :: after ->
     (forall x, In x before -> In x usedColors) ->
     ~ In c usedColors ->
     getNextColor usedColors randomIndex = c) /\
  (In (getNextColor usedColors randomIndex) usedColors ->
   forall c, In c colorPalette -> In c usedColors).
Proof.
  intro Hidx.
  assert (Hnth : In (nth randomIndex colorPalette EmptyString) colorPalette)
    by (now apply nth_In).
  assert (Hnonempty : forall c, In c colorPalette ->
                                String.eqb c EmptyString = false).
  { intros c Hc. cbn in Hc.
    repeat (destruct Hc as [<-|Hc]; [reflexivity|]). contradiction. }
  unfold getNextColor.
  destruct (find (fun c => negb (includes usedColors c)) colorPalette)
    as [c0|] eqn:Efind.
  - pose proof (find_some _ _ Efind) as [Hc0 Hfree].
    rewrite (Hnonempty c0 Hc0).
    split; [assumption|]. split.
    + intros before c after Hsplit Hbefore Hc.
      rewrite Hsplit in Efind.
      assert (Hgen : forall l,
        (forall x, In x l -> In x usedColors) ->
        find (fun c => negb (includes usedColors c)) (l ++ c :: after) = Some c).
      { induction l as [|x l IH]; intro Hl; cbn [app find].
        - destruct (includes usedColors c) eqn:E; [|reflexivity].
          apply includes_In in E. contradiction.
        - rewrite (proj2 (includes_In usedColors x) (Hl x (or_introl eq_refl))).
          cbn [negb]. apply IH. intros y Hy. apply Hl. now right. }
      rewrite (Hgen before Hbefore) in Efind. congruence.
    + intro Hused. apply includes_In in Hused.
      rewrite Hused in Hfree. discriminate.
  - split; [assumption|]. split.
    + intros before c after Hsplit _ Hc. exfalso.
      pose proof (find_none _ _ Efind c) as Hnone.
      rewrite Hsplit in Hnone. specialize (Hnone (in_elt c before after)).
      apply negb_false_iff, includes_In in Hnone. contradiction.
    + intros _ c Hc. pose proof (find_none _ _ Efind c Hc) as Hnone.
      now apply negb_false_iff, includes_In in Hnone.
Qed.

Lemma getNextColor_from_palette_witness :
  (3 < List.length colorPalette)%nat /\
  getNextColor ["#FF6B6B"; "#4ECDC4"]%string 3 = "#95E1D3"%string.
Proof.
  split; [cbn; lia|].
  refine (proj1 (proj2 (getNextColor_from_palette
                          ["#FF6B6B"; "#4ECDC4"]%string 3 _))
            ["#FF6B6B"; "#4ECDC4"]%string "#95E1D3"%string _ eq_refl _ _).
  - cbn. lia.
  - intros x Hx. exact Hx.
  - cbn. intuition discriminate.
Defined.

(** * The engine in binary64 arithmetic *)

(** ** The loop body refines the step relation *)

Lemma insert_perm_b64 {A} (cmp : A -> A -> Binary64.number) a l :
  Permutation (a :: l) (Binary64.insert cmp a l).
Proof.
  induction l as [|b l IH]; simpl; [reflexivity|].
  destruct (PrimFloat.ltb _ _); [|reflexivity].
  rewrite perm_swap. now apply perm_skip.
Qed.

Lemma sort_perm_b64 {A} (cmp : A -> A -> Binary64.number) l :
  Permutation l (Binary64.sort cmp l).
Proof.
  induction l as [|a l IH]; simpl; [constructor|].
  rewrite <- insert_perm_b64. now apply perm_skip.
Qed.

Lemma tryRotations_Some_b64 packed bt space rots rot :
  Binary64.tryRotations packed bt space rots = Some rot ->
  In rot rots /\
  (let '(rotL, rotW, rotH) := rot in
   Binary64.boxFitsInSpace rotL rotW rotH space = true /\
   Binary64.checkFragilityConstraint packed bt
     (Binary64.mkPosition (Binary64.sp_x space) (Binary64.sp_y space)
        (Binary64.sp_z space))
     (Binary64.mkDimensions rotL rotW rotH) = true).
Proof.
  induction rots as [|[[l w] h] rots IH]; simpl; [discriminate|].
  destruct (Binary64.boxFitsInSpace l w h space) eqn:Hfit; simpl.
  - destruct (Binary64.checkFragilityConstraint _ _ _ _) eqn:Hfrag; simpl.
    + intro E. injection E as <-. split; [now left|]. now split.
    + intro E. destruct (IH E) as [Hin Hrest]. split; [now right|assumption].
  - intro E. destruct (IH E) as [Hin Hrest]. split; [now right|assumption].
Qed.

Lemma splice_middle_b64 l1 space l2 newSpaces :
  Binary64.splice (l1 ++ space :: l2) (List.length l1) newSpaces
  = l1 ++ newSpaces ++ l2.
Proof.
  unfold Binary64.splice. f_equal.
  - induction l1 as [|a l1 IH]; simpl; [reflexivity|now f_equal].
  - f_equal. induction l1 as [|a l1 IH]; simpl; [reflexivity|exact IH].
Qed.

Lemma trySpaces_Some_b64 packed bt index spaces rest : forall pre res,
  spaces = pre ++ rest ->
  Binary64.trySpaces packed bt index spaces (List.length pre) rest = Some res ->
  exists l1 space l2 rot,
    spaces = l1 ++ space :: l2 /\
    Binary64.tryRotations packed bt space (Binary64.getRotations bt) = Some rot /\
    res = Binary64.placeAt bt index spaces (List.length l1) space rot.
Proof.
  induction rest as [|space rest IH]; intros pre res Hsp; simpl; [discriminate|].
  destruct (Binary64.tryRotations packed bt space (Binary64.getRotations bt))
    as [rot|] eqn:Hrot.
  - intro E. injection E as <-. exists pre, space, rest, rot. auto.
  - intro E. apply (IH (pre ++ [space])).
    + now rewrite <- app_assoc.
    + rewrite length_app. simpl. now rewrite Nat.add_1_r.
Qed.

Lemma placeBox_step_b64 st u : Binary64.step u st (Binary64.placeBox st u).
Proof.
  unfold Binary64.placeBox.
  destruct (Binary64.trySpaces _ _ _ _ _ _) as [[pb spaces']|] eqn:Htry.
  - apply (trySpaces_Some_b64 _ _ _ _ _ []) in Htry; [|reflexivity].
    destruct Htry as (l1 & space & l2 & [[rl rw] rh] & Hsp & Hrot & Hres).
    apply tryRotations_Some_b64 in Hrot. destruct Hrot as (Hin & Hfit & Hfrag).
    unfold Binary64.placeAt in Hres. rewrite Hsp, splice_middle_b64 in Hres.
    injection Hres as -> ->.
    now apply (Binary64.step_placed u st l1 l2 space rl rw rh).
  - apply Binary64.step_unpacked.
Qed.

(** An invariant of the step relation holds after the whole loop. *)
Lemma runLoop_invariant_b64 (P : Binary64.PackState -> Prop)
    (G : Binary64.BoxToPlace -> Prop) :
  (forall u st st', G u -> P st -> Binary64.step u st st' -> P st') ->
  forall units st, Forall G units -> P st -> P (Binary64.runLoop st units).
Proof.
  intros Hstep units. unfold Binary64.runLoop.
  induction units as [|u units IH]; intros st HG HP; simpl.
  - assumption.
  - inversion_clear HG as [|? ? Hu Hrest].
    apply IH; [assumption|].
    eapply Hstep; eauto. apply placeBox_step_b64.
Qed.

Lemma unit_boxType_In_b64 boxTypes u :
  In u (Binary64.unitsOf boxTypes) ->
  In (Binary64.btp_boxType u) boxTypes.
Proof.
  unfold Binary64.unitsOf.
  intro H. apply (Permutation_in _ (Permutation_sym (sort_perm_b64 _ _))) in H.
  unfold Binary64.expandBoxTypes in H. apply in_flat_map in H.
  destruct H as (bt & Hbt & Hu). unfold Binary64.expandBoxType in Hu.
  apply in_map_iff in Hu. destruct Hu as (i & <- & _). assumption.
Qed.

Lemma boxes_packBoxes_b64 c boxTypes :
  Binary64.boxes (Binary64.packBoxes c boxTypes)
  = Binary64.st_packedBoxes
      (Binary64.runLoop (Binary64.initialState c) (Binary64.unitsOf boxTypes)).
Proof. reflexivity. Qed.

(** Splitting a list that ends in [a] at one of its elements. *)
Lemma snoc_split {A} (l : list A) a pre f post :
  l ++ [a] = pre ++ f :: post ->
  (post = [] /\ l = pre /\ a = f) \/
  (exists post0, post = post0 ++ [a] /\ l = pre ++ f :: post0).
Proof.
  intro E. destruct post as [|p post _] using rev_ind.
  - left. apply app_inj_tail in E. destruct E as [-> ->]. auto.
  - right. rewrite app_comm_cons, app_assoc in E.
    apply app_inj_tail in E. destruct E as [-> ->].
    exists post. auto.
Qed.

(** ** Orientation of placed boxes *)

Lemma fromSpecs_final_b64 c boxTypes :
  Forall (Binary64.fromSpecs boxTypes)
         (Binary64.st_packedBoxes
            (Binary64.runLoop (Binary64.initialState c)
               (Binary64.unitsOf boxTypes))).
Proof.
  apply (runLoop_invariant_b64
           (fun st => Forall (Binary64.fromSpecs boxTypes)
                             (Binary64.st_packedBoxes st))
           (fun u => In (Binary64.btp_boxType u) boxTypes)).
  - intros u st st' Hu Hst Hstep.
    destruct Hstep as [l1 l2 s bl bw bh Hsp Hrot Hfit _|]; [|assumption].
    cbn [Binary64.st_packedBoxes]. apply Forall_app. split; [assumption|].
    constructor; [|constructor]. split; assumption.
  - rewrite Forall_forall. apply unit_boxType_In_b64.
  - constructor.
Qed.

Lemma rotations_permute_b64 bt l w h :
  In (l, w, h) (Binary64.getRotations bt) ->
  Permutation [l; w; h]
    [Binary64.bt_length bt; Binary64.bt_width bt; Binary64.bt_height bt] /\
  (Binary64.isFragile bt = true -> h = Binary64.bt_height bt).
Proof.
  unfold Binary64.getRotations. intro Hrot.
  destruct (Binary64.isFragile bt); simpl in Hrot;
    repeat (destruct Hrot as [Hrot|Hrot];
            [injection Hrot as <- <- <-; split; [perm3|congruence]|]);
    contradiction.
Qed.

(** C10, as amended: the effective dimensions of every placed box are a
    permutation of the dimensions of the box type it was requested from; so
    the product of the three real numbers they stand for is the same for
    both, and a fragile box keeps the height of its box type.  The two
    volumes the program computes, [length * width * height] of the placed
    box and of its box type, are products taken in different orders and are
    not covered: they may differ in the last digit. *)
Theorem placed_dimensions_permutation c boxTypes b :
  In b (Binary64.boxes (Binary64.packBoxes c boxTypes)) ->
  In (Binary64.boxType b) boxTypes /\
  Permutation
    [Binary64.dim_length (Binary64.dimensions b);
     Binary64.dim_width (Binary64.dimensions b);
     Binary64.dim_height (Binary64.dimensions b)]
    [Binary64.bt_length (Binary64.boxType b);
     Binary64.bt_width (Binary64.boxType b);
     Binary64.bt_height (Binary64.boxType b)] /\
  Binary64.valueOf (Binary64.dim_length (Binary64.dimensions b))
  * Binary64.valueOf (Binary64.dim_width (Binary64.dimensions b))
  * Binary64.valueOf (Binary64.dim_height (Binary64.dimensions b))
  == Binary64.valueOf (Binary64.bt_length (Binary64.boxType b))
     * Binary64.valueOf (Binary64.bt_width (Binary64.boxType b))
     * Binary64.valueOf (Binary64.bt_height (Binary64.boxType b)) /\
  (Binary64.isFragile (Binary64.boxType b) = true ->
   Binary64.dim_height (Binary64.dimensions b)
   = Binary64.bt_height (Binary64.boxType b)).
Proof.
  intro Hb. rewrite boxes_packBoxes_b64 in Hb.
  pose proof (fromSpecs_final_b64 c boxTypes) as H.
  rewrite Forall_forall in H. destruct (H b Hb) as [Hin Hrot].
  split; [assumption|].
  destruct (Binary64.dimensions b) as [dl dw dh]. cbn [Binary64.dim_length Binary64.dim_width Binary64.dim_height] in *.
  destruct (rotations_permute_b64 _ _ _ _ Hrot) as [Hperm Hfragile].
  split; [assumption|]. split; [|assumption].
  clear Hperm Hfragile. unfold Binary64.getRotations in Hrot.
  destruct (Binary64.isFragile (Binary64.boxType b)); simpl in Hrot;
    repeat (destruct Hrot as [Hrot|Hrot]; [injection Hrot as <- <- <-; ring|]);
    contradiction.
Qed.

Ltac valid_input_b64 :=
  unfold Binary64.validInput, Binary64.validContainer, Binary64.validBoxType;
  repeat first [ split | constructor | reflexivity | discriminate ].

Lemma placed_dimensions_permutation_witness :
  exists b,
    nth_error (Binary64.boxes (Binary64.packBoxes Binary64.stack_container
                                 Binary64.stack_boxTypes)) 0 = Some b /\
    In (Binary64.boxType b) Binary64.stack_boxTypes /\
    Binary64.dim_height (Binary64.dimensions b)
    = Binary64.bt_height (Binary64.boxType b).
Proof.
  eexists. split; [vm_compute; reflexivity|].
  match goal with
  | |- In (Binary64.boxType ?b) _ /\ _ =>
    destruct (placed_dimensions_permutation Binary64.stack_container
                Binary64.stack_boxTypes b) as (Hin & _ & _ & Hfragile)
  end.
  - apply (nth_error_In _ 0). vm_compute. reflexivity.
  - split; [exact Hin|]. apply Hfragile. reflexivity.
Defined.

(** C10 fails as stated: the post of 1.1 x 1.1 x 1.9 only fits the low
    container lying on its side, with effective dimensions
    (1.1, 1.9, 1.1).  The volume the program computes for the placed box,
    [1.1 * 1.9 * 1.1], is 2.2989999999999999 (the binary64 value nearest
    to 2.299); the volume it computes for the box type, [1.1 * 1.1 * 1.9],
    is 2.2990000000000004. *)
Lemma effective_volume_counterexample :
  Binary64.validInput Binary64.low_container Binary64.low_boxTypes /\
  exists b,
    Binary64.boxes (Binary64.packBoxes Binary64.low_container
                      Binary64.low_boxTypes) = [b] /\
    Binary64.effectiveVolume b = 2.2989999999999999%float /\
    Binary64.specVolume (Binary64.boxType b) = 2.2990000000000004%float /\
    PrimFloat.eqb (Binary64.effectiveVolume b)
                  (Binary64.specVolume (Binary64.boxType b)) = false /\
    Binary64.valueOf (Binary64.effectiveVolume b)
    < Binary64.valueOf (Binary64.specVolume (Binary64.boxType b)) /\
    Binary64.usedVolume
      (Binary64.stats (Binary64.packBoxes Binary64.low_container
                         Binary64.low_boxTypes))
    = 2.2989999999999999%float.
Proof.
  split; [valid_input_b64|].
  eexists. split; [vm_compute; reflexivity|].
  repeat split; vm_compute; reflexivity.
Qed.

(** ** The fragility rule *)

Lemma restsOn_stackedOn_b64 f b : Binary64.restsOn f b = Binary64.stackedOn f b.
Proof.
  unfold Binary64.restsOn, Binary64.stackedOn, Binary64.nearLevel,
    Binary64.fragileTopOf.
  now rewrite !andb_assoc.
Qed.

Lemma countRestingOn_stackCount_b64 placed f :
  Binary64.countRestingOn placed f = Binary64.stackCount placed f.
Proof.
  unfold Binary64.countRestingOn, Binary64.stackCount. f_equal.
  apply filter_ext. intro b. apply restsOn_stackedOn_b64.
Qed.

Lemma countRestingOn_app_b64 l1 l2 f :
  Binary64.countRestingOn (l1 ++ l2) f
  = (Binary64.countRestingOn l1 f + Binary64.countRestingOn l2 f)%nat.
Proof.
  unfold Binary64.countRestingOn. now rewrite filter_app, length_app.
Qed.

Lemma countRestingOn_one_b64 f b :
  Binary64.countRestingOn [b] f = if Binary64.restsOn f b then 1%nat else 0%nat.
Proof.
  unfold Binary64.countRestingOn. simpl. now destruct (Binary64.restsOn f b).
Qed.

(** What an accepted fragility check guarantees for the candidate. *)
Lemma fragilityLoop_true_b64 packedBoxes pos dims : forall rest,
  Binary64.fragilityLoop packedBoxes rest pos dims = true ->
  forall f, In f rest ->
    Binary64.isFragile (Binary64.boxType f) = true ->
    Binary64.restsOn f
      (Binary64.mkPackedBox EmptyString (Binary64.boxType f) pos
         (mkRotation Angle0 Angle0 Angle0) dims) = true ->
    (Binary64.stackCount packedBoxes f < 2)%nat.
Proof.
  induction rest as [|packed rest IH]; intros Hloop f Hin Hfrag Hrest;
    [contradiction|].
  cbn [Binary64.fragilityLoop] in Hloop. destruct Hin as [->|Hin].
  - rewrite Hfrag in Hloop. cbn [negb] in Hloop.
    unfold Binary64.restsOn in Hrest.
    cbn [Binary64.position Binary64.dimensions] in Hrest.
    apply andb_true_iff in Hrest. destruct Hrest as [Hrest Hz].
    apply andb_true_iff in Hrest. destruct Hrest as [Hnear Hx].
    unfold Binary64.nearLevel, Binary64.fragileTopOf in Hloop.
    rewrite Hnear, Hx, Hz in Hloop. cbn [andb] in Hloop.
    destruct (2 <=? Binary64.stackCount packedBoxes f)%nat eqn:E; [discriminate|].
    apply Nat.leb_gt in E. exact E.
  - apply IH; try assumption.
    destruct (negb (Binary64.isFragile (Binary64.boxType packed))); [assumption|].
    destruct (Binary64.nearLevel _ _); [|assumption].
    destruct (_ && _); [|assumption].
    destruct (2 <=? _)%nat; [discriminate|assumption].
Qed.

Lemma restsOn_placedBoxAt_b64 f bt index s bl bw bh :
  Binary64.restsOn f (Binary64.placedBoxAt bt index s (bl, bw, bh))
  = Binary64.restsOn f
      (Binary64.mkPackedBox EmptyString (Binary64.boxType f)
         (Binary64.mkPosition (Binary64.sp_x s) (Binary64.sp_y s)
            (Binary64.sp_z s))
         (mkRotation Angle0 Angle0 Angle0)
         (Binary64.mkDimensions bl bw bh)).
Proof. reflexivity. Qed.

Lemma stackInv_step_b64 u st st' :
  Binary64.stackInv (Binary64.st_packedBoxes st) ->
  Binary64.step u st st' ->
  Binary64.stackInv (Binary64.st_packedBoxes st').
Proof.
  intros Hinv Hstep.
  destruct Hstep as [l1 l2 s bl bw bh Hsp Hrot Hfit Hfrag|]; [|exact Hinv].
  cbn [Binary64.st_packedBoxes].
  set (nb := Binary64.placedBoxAt (Binary64.btp_boxType u)
               (Binary64.btp_index u) s (bl, bw, bh)).
  intros pre f post Hsplit Hfragile.
  apply snoc_split in Hsplit.
  destruct Hsplit as [(-> & _ & _)|(post0 & -> & Hpacked)].
  - right. reflexivity.
  - rewrite !countRestingOn_app_b64, countRestingOn_one_b64.
    destruct (Binary64.restsOn f nb) eqn:Hrests.
    + left. unfold nb in Hrests. rewrite restsOn_placedBoxAt_b64 in Hrests.
      assert (Hf : In f (Binary64.st_packedBoxes st))
        by (rewrite Hpacked; apply in_elt).
      pose proof (fragilityLoop_true_b64 _ _ _ _ Hfrag f Hf Hfragile Hrests)
        as Hlt.
      rewrite countRestingOn_stackCount_b64. lia.
    + specialize (Hinv pre f post0 Hpacked Hfragile).
      rewrite !Nat.add_0_r. exact Hinv.
Qed.

Lemma stackInv_final_b64 c boxTypes :
  Binary64.stackInv (Binary64.boxes (Binary64.packBoxes c boxTypes)).
Proof.
  rewrite boxes_packBoxes_b64.
  apply (runLoop_invariant_b64
           (fun st => Binary64.stackInv (Binary64.st_packedBoxes st))
           (fun _ => True)).
  - intros u st st' _ Hinv Hstep. eapply stackInv_step_b64; eauto.
  - rewrite Forall_forall. auto.
  - intros pre f post E. now destruct pre.
Qed.

(** C4, as amended: for every fragile placed box [f], at most two of the
    boxes placed after [f] have their bottom face at the level of its top
    face (within 0.1) and a footprint that overlaps its footprint, each test
    as the program evaluates it; and as soon as one box placed after [f]
    does, at most two boxes of the whole output do.  The boxes placed before
    [f], and [f] itself, are not limited. *)
Theorem fragile_stack_limit_later c boxTypes pre f post :
  Binary64.boxes (Binary64.packBoxes c boxTypes) = pre ++ f :: post ->
  Binary64.isFragile (Binary64.boxType f) = true ->
  (Binary64.countRestingOn post f <= 2)%nat /\
  ((Binary64.countRestingOn (pre ++ f :: post) f <= 2)%nat \/
   Binary64.countRestingOn post f = 0%nat).
Proof.
  intros Hboxes Hfragile.
  pose proof (stackInv_final_b64 c boxTypes pre f post Hboxes Hfragile) as H.
  rewrite Hboxes in H. split; [|exact H].
  destruct H as [H|H]; [|lia].
  change (pre ++ f :: post) with (pre ++ [f] ++ post) in H.
  rewrite !countRestingOn_app_b64 in H. lia.
Qed.

Lemma fragile_stack_limit_later_witness :
  exists f post,
    Binary64.boxes (Binary64.packBoxes Binary64.stack_container
                      Binary64.stack_boxTypes) = [] ++ f :: post /\
    Binary64.isFragile (Binary64.boxType f) = true /\
    List.length post = 4%nat /\
    (Binary64.countRestingOn post f <= 2)%nat.
Proof.
  eexists. eexists. split; [vm_compute; reflexivity|].
  split; [reflexivity|]. split; [reflexivity|].
  refine (proj1 (fragile_stack_limit_later Binary64.stack_container
                   Binary64.stack_boxTypes [] _ _ _ _)).
  - vm_compute. reflexivity.
  - reflexivity.
Defined.

(** C4 fails as stated: three sturdy sheets of height 1/64 are placed one
    on the other, then a fragile sheet of height 1/128 on top of them.  The
    bottom faces of the three sturdy sheets lie within 0.1 of the top face
    of the fragile sheet and their footprints are its footprint, so three
    placed boxes other than the fragile sheet are counted on it, and four
    with the fragile sheet itself.  All numbers of this input are binary
    fractions, so the count is the same in exact arithmetic. *)
Lemma fragile_stack_earlier_counterexample :
  Binary64.validInput Binary64.sheet_container Binary64.sheet_boxTypes /\
  exists pre f,
    Binary64.boxes (Binary64.packBoxes Binary64.sheet_container
                      Binary64.sheet_boxTypes) = pre ++ [f] /\
    Binary64.isFragile (Binary64.boxType f) = true /\
    Binary64.countRestingOn pre f = 3%nat /\
    List.length (filter (Binary64.restsOnExactly f) pre) = 3%nat /\
    Binary64.countRestingOn (pre ++ [f]) f = 4%nat /\
    ~ (Binary64.countRestingOn
         (Binary64.boxes (Binary64.packBoxes Binary64.sheet_container
                            Binary64.sheet_boxTypes)) f <= 2)%nat.
Proof.
  split; [valid_input_b64|].
  eexists. eexists.
  split; [vm_compute; match goal with
                      | |- [?a; ?b; ?c; ?d] = _ =>
                        change ([a; b; c; d]) with ([a; b; c] ++ [d])
                      end; reflexivity|].
  split; [reflexivity|].
  split; [vm_compute; reflexivity|].
  split; [vm_compute; reflexivity|].
  split; [vm_compute; reflexivity|].
  vm_compute. lia.
Qed.

(** ** Where boxes are placed *)

Lemma splitSpace_In_b64 s bl bw bh r :
  In r (Binary64.splitSpace s bl bw bh) ->
  (Binary64.sp_x r = PrimFloat.add (Binary64.sp_x s) bl /\
   Binary64.sp_y r = Binary64.sp_y s /\ Binary64.sp_z r = Binary64.sp_z s) \/
  (Binary64.sp_x r = Binary64.sp_x s /\ Binary64.sp_y r = Binary64.sp_y s /\
   Binary64.sp_z r = PrimFloat.add (Binary64.sp_z s) bw) \/
  (Binary64.sp_x r = Binary64.sp_x s /\
   Binary64.sp_y r = PrimFloat.add (Binary64.sp_y s) bh /\
   Binary64.sp_z r = Binary64.sp_z s).
Proof.
  unfold Binary64.splitSpace.
  destruct (PrimFloat.ltb _ (PrimFloat.sub (Binary64.sp_length s) bl));
    destruct (PrimFloat.ltb _ (PrimFloat.sub (Binary64.sp_width s) bw));
    destruct (PrimFloat.ltb _ (PrimFloat.sub (Binary64.sp_height s) bh));
    simpl; intro H;
    repeat (destruct H as [<-|H]; [simpl; auto|]); contradiction.
Qed.

Lemma spaces_after_In_b64 l1 l2 parts r :
  In r (filter Binary64.bigEnough
          (Binary64.sort Binary64.compareSpaces (l1 ++ parts ++ l2))) ->
  In r parts \/ In r (l1 ++ l2).
Proof.
  intro H. apply filter_In in H. destruct H as [H _].
  apply (Permutation_in _ (Permutation_sym (sort_perm_b64 _ _))) in H.
  rewrite !in_app_iff in *. tauto.
Qed.

Lemma cornerOf_mono_b64 placed b x y z :
  Binary64.cornerOf placed x y z -> Binary64.cornerOf (placed ++ [b]) x y z.
Proof.
  intros (Hx & Hy & Hz).
  repeat split;
    match goal with
    | H : ?v = _ \/ _ |- ?v = _ \/ _ =>
      destruct H as [H|(b' & Hin & H)];
        [now left|right; exists b'; split; [apply in_or_app; now left|exact H]]
    end.
Qed.

Lemma cornerInv_step_b64 u st st' :
  Binary64.cornerInv st -> Binary64.step u st st' -> Binary64.cornerInv st'.
Proof.
  intros [Hsp Hbx] Hstep.
  destruct Hstep as [l1 l2 s bl bw bh Hspaces Hrot Hfit _|]; [|now split].
  cbn [Binary64.st_spaces Binary64.st_packedBoxes] in *.
  set (nb := Binary64.placedBoxAt (Binary64.btp_boxType u)
               (Binary64.btp_index u) s (bl, bw, bh)).
  rewrite Forall_forall in Hsp.
  assert (Hs : Binary64.cornerOf (Binary64.st_packedBoxes st)
                 (Binary64.sp_x s) (Binary64.sp_y s) (Binary64.sp_z s)).
  { apply Hsp. rewrite Hspaces. apply in_elt. }
  assert (Hnb : In nb (Binary64.st_packedBoxes st ++ [nb]))
    by (apply in_or_app; right; now left).
  split.
  - rewrite Forall_forall. intros r Hr.
    apply spaces_after_In_b64 in Hr. destruct Hr as [Hr|Hr].
    + apply (cornerOf_mono_b64 _ nb) in Hs. destruct Hs as (Hx & Hy & Hz).
      apply splitSpace_In_b64 in Hr.
      destruct Hr as [(-> & -> & ->)|[(-> & -> & ->)|(-> & -> & ->)]].
      * split; [|now split]. right. now exists nb.
      * split; [assumption|]. split; [assumption|]. right. now exists nb.
      * split; [assumption|]. split; [|assumption]. right. now exists nb.
    + apply cornerOf_mono_b64. apply Hsp. rewrite Hspaces.
      apply in_app_iff in Hr. apply in_or_app.
      destruct Hr as [Hr|Hr]; [now left|right; now right].
  - intros pre b post Hsplit. apply snoc_split in Hsplit.
    destruct Hsplit as [(_ & <- & <-)|(post0 & _ & Hpacked)].
    + exact Hs.
    + now apply (Hbx pre b post0).
Qed.

Lemma cornerInv_final_b64 c boxTypes :
  Binary64.cornerInv
    (Binary64.runLoop (Binary64.initialState c) (Binary64.unitsOf boxTypes)).
Proof.
  apply (runLoop_invariant_b64 Binary64.cornerInv (fun _ => True)).
  - intros u st st' _ Hinv Hstep. eapply cornerInv_step_b64; eauto.
  - rewrite Forall_forall. auto.
  - split.
    + constructor; [|constructor]. repeat split; now left.
    + intros pre b post E. now destruct pre.
Qed.

(** X9: every placed box stands at floor level or at the level the program
    computed for the top face of a box placed before it, and likewise along
    the other two axes: each coordinate of its corner is 0 or the far face
    [x + length], [y + height], [z + width] of an earlier box, exactly as the
    program computed that sum. *)
Theorem placed_boxes_level c boxTypes pre b post :
  Binary64.boxes (Binary64.packBoxes c boxTypes) = pre ++ b :: post ->
  (Binary64.pos_y (Binary64.position b) = 0%float \/
   exists under,
     In under pre /\
     Binary64.pos_y (Binary64.position b)
     = PrimFloat.add (Binary64.pos_y (Binary64.position under))
                     (Binary64.dim_height (Binary64.dimensions under))) /\
  (Binary64.pos_x (Binary64.position b) = 0%float \/
   exists left,
     In left pre /\
     Binary64.pos_x (Binary64.position b)
     = PrimFloat.add (Binary64.pos_x (Binary64.position left))
                     (Binary64.dim_length (Binary64.dimensions left))) /\
  (Binary64.pos_z (Binary64.position b) = 0%float \/
   exists back,
     In back pre /\
     Binary64.pos_z (Binary64.position b)
     = PrimFloat.add (Binary64.pos_z (Binary64.position back))
                     (Binary64.dim_width (Binary64.dimensions back))).
Proof.
  intro Hboxes. rewrite boxes_packBoxes_b64 in Hboxes.
  destruct (proj2 (cornerInv_final_b64 c boxTypes) pre b post Hboxes)
    as (Hx & Hy & Hz).
  split; [exact Hy|]. split; [exact Hx|exact Hz].
Qed.

Lemma placed_boxes_level_witness :
  exists pre b post,
    Binary64.boxes (Binary64.packBoxes Binary64.stack_container
                      Binary64.stack_boxTypes) = pre ++ b :: post /\
    List.length pre = 3%nat /\
    (Binary64.pos_y (Binary64.position b) = 0%float \/
     exists under,
       In under pre /\
       Binary64.pos_y (Binary64.position b)
       = PrimFloat.add (Binary64.pos_y (Binary64.position under))
                       (Binary64.dim_height (Binary64.dimensions under))).
Proof.
  eexists. eexists. eexists.
  split.
  { vm_compute.
    match goal with
    | |- [?a; ?b; ?c; ?d; ?e] = _ =>
      change ([a; b; c; d; e]) with ([a; b; c] ++ d :: [e])
    end.
    reflexivity. }
  split; [reflexivity|].
  refine (proj1 (placed_boxes_level Binary64.stack_container
                   Binary64.stack_boxTypes _ _ _ _)).
  vm_compute. reflexivity.
Defined.

(** ** Rounding in the guillotine split

    [splitSpace] computes the origin [x + bl] of the right residual and its
    extent [length - bl] by two operations that round independently, so
    origin plus extent may exceed the far face of the consumed space; so it
    is along the other two axes.  The three properties below hold in exact
    arithmetic and fail in the arithmetic of the program. *)

(** C3: the row of three boxes in the container of length 3.5.  The second
    box is placed at [x = 1.3] and the third at
    [x = 1.3 + 1.1 = 2.4000000000000004]; with its length of 1.1 the third
    box ends at 3.5000000000000004, outside the container. *)
Theorem packBoxes_outside_container_binary64 :
  Binary64.validInput Binary64.row_container Binary64.row_boxTypes /\
  exists b,
    nth_error (Binary64.boxes (Binary64.packBoxes Binary64.row_container
                                 Binary64.row_boxTypes)) 2 = Some b /\
    Binary64.pos_x (Binary64.position b) = 2.4000000000000004%float /\
    Binary64.dim_length (Binary64.dimensions b) = 1.1%float /\
    PrimFloat.add (Binary64.pos_x (Binary64.position b))
                  (Binary64.dim_length (Binary64.dimensions b))
    = 3.5000000000000004%float /\
    Binary64.valueOf (Binary64.ct_length Binary64.row_container)
    < Binary64.valueOf (Binary64.pos_x (Binary64.position b))
      + Binary64.valueOf (Binary64.dim_length (Binary64.dimensions b)) /\
    ~ within (Binary64.boxRegion b)
             (Binary64.containerRegion Binary64.row_container).
Proof.
  split; [valid_input_b64|].
  eexists. split; [vm_compute; reflexivity|].
  split; [vm_compute; reflexivity|].
  split; [vm_compute; reflexivity|].
  split; [vm_compute; reflexivity|].
  split; [vm_compute; reflexivity|].
  intros (_ & H & _). vm_compute in H. apply H. reflexivity.
Qed.

(** C1: the same row in a container of 5 x 4 x 2, behind a box of
    3.5 x 2 x 2 and next to a box of 1.5 x 4 x 2 that starts at [x = 3.5].
    The last box of the row spans [x] from 2.4000000000000004 to
    3.5000000000000004 and shares the points with [3.5 <= x] of its region
    with the box placed second. *)
Theorem packBoxes_overlap_binary64 :
  Binary64.validInput Binary64.yard_container Binary64.yard_boxTypes /\
  exists a b,
    nth_error (Binary64.boxes (Binary64.packBoxes Binary64.yard_container
                                 Binary64.yard_boxTypes)) 1 = Some a /\
    nth_error (Binary64.boxes (Binary64.packBoxes Binary64.yard_container
                                 Binary64.yard_boxTypes)) 4 = Some b /\
    Binary64.pos_x (Binary64.position a) = 3.5%float /\
    PrimFloat.ltb (Binary64.pos_x (Binary64.position a))
                  (PrimFloat.add (Binary64.pos_x (Binary64.position b))
                     (Binary64.dim_length (Binary64.dimensions b))) = true /\
    inRegion (7 # 2, 0, 2) (Binary64.boxRegion a) /\
    inRegion (7 # 2, 0, 2) (Binary64.boxRegion b) /\
    overlapInVolume (Binary64.boxRegion a) (Binary64.boxRegion b).
Proof.
  split; [valid_input_b64|].
  eexists. eexists.
  split; [vm_compute; reflexivity|]. split; [vm_compute; reflexivity|].
  split; [vm_compute; reflexivity|]. split; [vm_compute; reflexivity|].
  match goal with
  | |- ?A /\ ?B /\ _ =>
    assert (HA : A) by (vm_compute; repeat split; discriminate);
    assert (HB : B) by (vm_compute; repeat split; discriminate)
  end.
  split; [exact HA|]. split; [exact HB|].
  exists (7 # 2, 0, 2). split; assumption.
Qed.

(** C9: the right residual of the first split on the row input, of the
    container space 3.5 x 2 x 2 by the box 1.3 x 2 x 2, starts at [x = 1.3]
    with length [3.5 - 1.3 = 2.2]; the binary64 values 1.3 and 2.2 stand for
    real numbers whose sum exceeds 3.5, so the residual is not inside the
    space it was split from and box and residuals do not tile that space;
    after
    two iterations the only free space starts at [x = 2.4000000000000004]
    with length 1.1 and ends outside the container; after four iterations
    on the yard input the only free space shares points with the box placed
    second. *)
Theorem free_space_invariant_fails_binary64 :
  (Binary64.validInput Binary64.row_container Binary64.row_boxTypes /\
   (exists s r,
      Binary64.st_spaces
        (Binary64.stateAfter Binary64.row_container Binary64.row_boxTypes 0)
      = [s] /\
      Binary64.splitSpace s 1.3%float 2%float 2%float = [r] /\
      Binary64.st_spaces
        (Binary64.stateAfter Binary64.row_container Binary64.row_boxTypes 1)
      = [r] /\
      Binary64.sp_x r = 1.3%float /\
      Binary64.sp_length r = 2.2%float /\
      ~ within (Binary64.spaceRegion r) (Binary64.spaceRegion s)) /\
   (exists s,
      Binary64.st_spaces
        (Binary64.stateAfter Binary64.row_container Binary64.row_boxTypes 2)
      = [s] /\
      Binary64.sp_x s = 2.4000000000000004%float /\
      Binary64.sp_length s = 1.1%float /\
      ~ within (Binary64.spaceRegion s)
               (Binary64.containerRegion Binary64.row_container))) /\
  (Binary64.validInput Binary64.yard_container Binary64.yard_boxTypes /\
   exists s b,
     Binary64.st_spaces
       (Binary64.stateAfter Binary64.yard_container Binary64.yard_boxTypes 4)
     = [s] /\
     nth_error
       (Binary64.st_packedBoxes
          (Binary64.stateAfter Binary64.yard_container Binary64.yard_boxTypes 4))
       1 = Some b /\
     overlapInVolume (Binary64.spaceRegion s) (Binary64.boxRegion b)).
Proof.
  split.
  - split; [valid_input_b64|]. split.
    + eexists. eexists. split; [vm_compute; reflexivity|].
      split; [vm_compute; reflexivity|]. split; [vm_compute; reflexivity|].
      split; [vm_compute; reflexivity|]. split; [vm_compute; reflexivity|].
      intros (_ & H & _). vm_compute in H. apply H. reflexivity.
    + eexists. split; [vm_compute; reflexivity|].
      split; [vm_compute; reflexivity|]. split; [vm_compute; reflexivity|].
      intros (_ & H & _). vm_compute in H. apply H. reflexivity.
  - split; [valid_input_b64|].
    eexists. eexists.
    split; [vm_compute; reflexivity|]. split; [vm_compute; reflexivity|].
    exists (7 # 2, 0, 2). split; vm_compute; repeat split; discriminate.
Qed.
